(** * Library Management System: the REST handlers of [app.py] over an
    explicit relational store.

    The Flask views of [app.py] read and write three tables through
    SQLAlchemy.  Every view is embedded as a function from the store (and
    the request) to a response and the store after the request.  What the
    views leave to the store is modelled from the table declarations of
    [app.py]: [nullable=False] on [Book.title] and [Author.name],
    [unique=True] on [Book.isbn], and the composite primary key of
    [book_author].  A statement the store refuses raises [IntegrityError],
    an integer the store cannot hold raises [OverflowError] when it is
    bound; no view catches either, so the request ends as a server error
    and its transaction is rolled back.

    The relationship [Book.authors] and its backref [Author.books] are
    modelled with what the session keeps of them during a request: the
    instances it holds, the pending mutations of the collections, and the
    statements of each flush. *)

From stdpp Require Import gmap strings list fin_maps.
From Stdlib Require Import Ascii.

Local Open Scope Z_scope.

(** ** Strings

    A Python [str] is modelled as a [string] whose characters are the code
    points below 256. *)

Module Str.

(** [str.isspace] on the code points below 256: tab to carriage return,
    the four separators 28..31, space, NEL and the no-break space. *)
Definition is_space (c : ascii) : bool :=
  let n := nat_of_ascii c in
  ((9 <=? n) && (n <=? 13) || (28 <=? n) && (n <=? 32) || (n =? 133) || (n =? 160))%nat.

Fixpoint lstrip (s : string) : string :=
  match s with
  | EmptyString => EmptyString
  | String c r => if is_space c then lstrip r else s
  end.

Fixpoint rstrip (s : string) : string :=
  match s with
  | EmptyString => EmptyString
  | String c r =>
      match rstrip r with
      | EmptyString => if is_space c then EmptyString else String c EmptyString
      | r' => String c r'
      end
  end.

(** [s.strip()] *)
Definition strip (s : string) : string := rstrip (lstrip s).

(** Python truthiness of a string: [bool(s)]. *)
Definition truthy (s : string) : bool :=
  match s with EmptyString => false | String _ _ => true end.

(** SQLite's [lower()] folds the 26 ASCII capitals only. *)
Definition lower_char (c : ascii) : ascii :=
  let n := nat_of_ascii c in
  if ((65 <=? n) && (n <=? 90))%nat then ascii_of_nat (n + 32) else c.

Fixpoint lower (s : string) : string :=
  match s with
  | EmptyString => EmptyString
  | String c r => String (lower_char c) (lower r)
  end.

Definition percent : ascii := "%"%char.
Definition underscore : ascii := "_"%char.

(** SQL [text LIKE pat] without an escape character: [%] stands for any
    run of characters, [_] for exactly one, any other character for
    itself. *)
Fixpoint like (pat text : string) : bool :=
  match pat with
  | EmptyString => negb (truthy text)
  | String p pat' =>
      if Ascii.eqb p percent then
        (fix skip (t : string) : bool :=
           like pat' t ||
           match t with
           | EmptyString => false
           | String _ t' => skip t'
           end) text
      else if Ascii.eqb p underscore then
        match text with
        | EmptyString => false
        | String _ t' => like pat' t'
        end
      else
        match text with
        | EmptyString => false
        | String c t' => Ascii.eqb p c && like pat' t'
        end
  end.

(** [column.ilike(pat)], which SQLAlchemy renders for SQLite as
    [lower(column) LIKE lower(pat)]. *)
Definition ilike (text pat : string) : bool := like (lower pat) (lower text).

(** The f-string [f'%{query}%']. *)
Definition wrap (query : string) : string :=
  String percent (query +:+ String percent EmptyString).

(** [needle in haystack] *)
Fixpoint prefix (p s : string) : bool :=
  match p, s with
  | EmptyString, _ => true
  | String a p', String b s' => Ascii.eqb a b && prefix p' s'
  | String _ _, EmptyString => false
  end.

Fixpoint contains (needle haystack : string) : bool :=
  prefix needle haystack ||
  match haystack with
  | EmptyString => false
  | String _ h => contains needle h
  end.

(** No character of [s] is an SQL wildcard. *)
Fixpoint plain (s : string) : bool :=
  match s with
  | EmptyString => true
  | String c r => negb (Ascii.eqb c percent) && negb (Ascii.eqb c underscore) && plain r
  end.

End Str.

(** ** The tables

    A row is stored under its primary key [id].  A Python attribute that
    may hold [None] is an [option]. *)

Module Book.
Record t := mk {
  title : option string;      (* db.String(200), nullable=False *)
  year : option Z;            (* db.Integer *)
  isbn : option string;       (* db.String(20), unique=True *)
  created_at : option Z       (* db.DateTime, default=datetime.utcnow *)
}.
End Book.

Module Author.
Record t := mk {
  name : option string;       (* db.String(100), nullable=False *)
  birth_year : option Z;      (* db.Integer *)
  country : option string;    (* db.String(50) *)
  created_at : option Z       (* db.DateTime, default=datetime.utcnow *)
}.
End Author.

(** The store: the tables [book] and [author], and the association table
    [book_author] whose rows are the pairs [(book_id, author_id)]. *)
Record db := Db {
  book : gmap Z Book.t;
  author : gmap Z Author.t;
  book_author : gset (Z * Z)
}.

Definition empty_db : db := Db ∅ ∅ ∅.

(** ** Exceptions and the statements of a flush *)

Inductive exn :=
| IntegrityError   (* the store refused a statement *)
| OverflowError    (* an integer outside SQLite's INTEGER was bound *)
| TypeError.       (* iterating over [None] *)

Inductive result (A : Type) :=
| Ok (a : A)
| Raise (e : exn).
Arguments Ok {A} a.
Arguments Raise {A} e.

#[global] Instance result_ret : MRet result := λ A, Ok.
#[global] Instance result_bind : MBind result :=
  λ A B f m, match m with Ok a => f a | Raise e => Raise e end.

(** SQLite's INTEGER is a signed value of 64 bits. *)
Definition int64 (z : Z) : Prop := - 2 ^ 63 ≤ z < 2 ^ 63.

#[global] Instance int64_dec z : Decision (int64 z).
Proof. unfold int64. apply _. Defined.

(** A value of a nullable INTEGER column the driver can bind. *)
Definition bound (v : option Z) : Prop :=
  match v with
  | Some z => int64 z
  | None => True
  end.

#[global] Instance bound_dec v : Decision (bound v).
Proof. destruct v; apply _. Defined.

(** The driver binds the integer parameters of a statement before SQLite
    runs it, and raises on one that does not fit. *)
Definition bind (v : option Z) : result unit :=
  if decide (bound v) then Ok tt else Raise OverflowError.

(** The same for the SET clause of an UPDATE, which holds the columns whose
    value changed only. *)
Definition bind_changed (old new : option Z) : result unit :=
  if decide (new = old) then Ok tt else bind new.

(** The rowid SQLite gives to a row inserted without one: 1 in an empty
    table, otherwise one more than the largest rowid in use. *)
Definition next_id {V} (tbl : gmap Z V) : Z :=
  match (map_to_list tbl).*1 with
  | [] => 1
  | k :: ks => 1 + foldr Z.max k ks
  end.

(** [unique=True] on [isbn]: no other row carries the same non-null ISBN. *)
Definition isbn_unused (tbl : gmap Z Book.t) (id : Z) (b : Book.t) : Prop :=
  match Book.isbn b with
  | None => True
  | Some s => map_Forall (λ j bj, j = id ∨ Book.isbn bj ≠ Some s) tbl
  end.

#[global] Instance isbn_unused_dec tbl id b : Decision (isbn_unused tbl id b).
Proof. unfold isbn_unused. destruct (Book.isbn b); apply _. Defined.

(** INSERT or UPDATE of the [book] row [id]. *)
Definition write_book (st : db) (id : Z) (b : Book.t) : result db :=
  match Book.title b with
  | None => Raise IntegrityError      (* NOT NULL constraint failed: book.title *)
  | Some _ =>
      if decide (isbn_unused (book st) id b)
      then Ok (Db (<[id := b]> (book st)) (author st) (book_author st))
      else Raise IntegrityError       (* UNIQUE constraint failed: book.isbn *)
  end.

(** INSERT or UPDATE of the [author] row [id]. *)
Definition write_author (st : db) (id : Z) (a : Author.t) : result db :=
  match Author.name a with
  | None => Raise IntegrityError      (* NOT NULL constraint failed: author.name *)
  | Some _ => Ok (Db (book st) (<[id := a]> (author st)) (book_author st))
  end.

(** INSERT of one row of [book_author]; both columns form the primary key. *)
Definition insert_link (st : db) (p : Z * Z) : result db :=
  if decide (p ∈ book_author st)
  then Raise IntegrityError           (* UNIQUE constraint failed: book_author *)
  else Ok (Db (book st) (author st) ({[ p ]} ∪ book_author st)).

Fixpoint insert_links (st : db) (ps : list (Z * Z)) : result db :=
  match ps with
  | [] => Ok st
  | p :: ps' => st' ← insert_link st p; insert_links st' ps'
  end.

(** DELETE of rows of [book_author]. *)
Definition delete_links (st : db) (ps : list (Z * Z)) : db :=
  Db (book st) (author st) (book_author st ∖ list_to_set ps).

(** ** Queries and relationships

    An ORM instance is its primary key with its row.  The order of the rows
    a query returns is left to the store, as [map_to_list] leaves it. *)

(** [Book.query.all()] *)
Definition Book_all (st : db) : list (Z * Book.t) := map_to_list (book st).

(** [Author.query.all()] *)
Definition Author_all (st : db) : list (Z * Author.t) := map_to_list (author st).

(** [Book.query.get(id)] and [Author.query.get(id)] when the session does
    not hold the instance: the SELECT binds [id]. *)
Definition Book_get (st : db) (id : Z) : result (option Book.t) :=
  if decide (int64 id) then Ok (book st !! id) else Raise OverflowError.

Definition Author_get (st : db) (id : Z) : result (option Author.t) :=
  if decide (int64 id) then Ok (author st !! id) else Raise OverflowError.

(** [book.authors]: the authors joined to the book through [book_author]. *)
Definition Book_authors (st : db) (book_id : Z) : list (Z * Author.t) :=
  filter (λ a, (book_id, a.1) ∈ book_author st) (Author_all st).

(** [author.books], the backref. *)
Definition Author_books (st : db) (author_id : Z) : list (Z * Book.t) :=
  filter (λ b, (b.1, author_id) ∈ book_author st) (Book_all st).

(** ** Serialization *)

Module BookSimple.
Record t := mk { id : Z; title : option string; year : option Z }.
End BookSimple.

Module AuthorSimple.
Record t := mk { id : Z; name : option string; country : option string }.
End AuthorSimple.

Module BookDict.
Record t := mk {
  id : Z;
  title : option string;
  year : option Z;
  isbn : option string;
  created_at : option Z;
  authors : list AuthorSimple.t
}.
End BookDict.

Module AuthorDict.
Record t := mk {
  id : Z;
  name : option string;
  birth_year : option Z;
  country : option string;
  created_at : option Z;
  books : list BookSimple.t
}.
End AuthorDict.

Definition Book_simple_dict (o : Z * Book.t) : BookSimple.t :=
  BookSimple.mk o.1 (Book.title o.2) (Book.year o.2).

Definition Author_simple_dict (o : Z * Author.t) : AuthorSimple.t :=
  AuthorSimple.mk o.1 (Author.name o.2) (Author.country o.2).

Definition Book_to_dict (st : db) (o : Z * Book.t) : BookDict.t :=
  BookDict.mk o.1 (Book.title o.2) (Book.year o.2) (Book.isbn o.2)
    (Book.created_at o.2) (Author_simple_dict <$> Book_authors st o.1).

Definition Author_to_dict (st : db) (o : Z * Author.t) : AuthorDict.t :=
  AuthorDict.mk o.1 (Author.name o.2) (Author.birth_year o.2)
    (Author.country o.2) (Author.created_at o.2)
    (Book_simple_dict <$> Author_books st o.1).

(** ** Requests and responses *)

(** The JSON object of a book request, with the types the page's script
    sends: a string for [title] and [isbn], an integer for [year], a list of
    ids for [author_ids].  A field is [None] when its key is absent,
    [Some None] when it is [null]; [others] are the keys the views never
    read. *)
Module BookData.
Record t := mk {
  title : option (option string);
  year : option (option Z);
  isbn : option (option string);
  author_ids : option (option (list Z));
  others : list string
}.
End BookData.

Module AuthorData.
Record t := mk {
  name : option (option string);
  birth_year : option (option Z);
  country : option (option string);
  others : list string
}.
End AuthorData.

(** [data.get(key)]: [None] for an absent key as for a [null] value. *)
Definition get {A} (field : option (option A)) : option A :=
  match field with
  | Some v => v
  | None => None
  end.

(** [key in data] *)
Definition has {A} (field : option (option A)) : bool :=
  match field with Some _ => true | None => false end.

(** [bool(data.get(key))] for a string and for a list. *)
Definition truthy_str (v : option string) : bool :=
  match v with Some s => Str.truthy s | None => false end.

Definition truthy_list {A} (v : option (list A)) : bool :=
  match v with Some (_ :: _) => true | _ => false end.

(** [not data], where [request.get_json()] gave [None] or a dict. *)
Definition no_book_data (data : option BookData.t) : bool :=
  match data with
  | None => true
  | Some d =>
      negb (has (BookData.title d) || has (BookData.year d) || has (BookData.isbn d)
            || has (BookData.author_ids d))
      && bool_decide (BookData.others d = [])
  end.

Definition no_author_data (data : option AuthorData.t) : bool :=
  match data with
  | None => true
  | Some d =>
      negb (has (AuthorData.name d) || has (AuthorData.birth_year d)
            || has (AuthorData.country d))
      && bool_decide (AuthorData.others d = [])
  end.

(** The JSON envelopes of [jsonify]. *)
Inductive body :=
| Failure (error : string)
| Books (count : nat) (books : list BookDict.t)
| OneBook (message : option string) (book : BookDict.t)
| Authors (count : nat) (authors : list AuthorDict.t)
| OneAuthor (message : option string) (author : AuthorDict.t)
| Message (message : string)
| Search (query : string) (books : list BookDict.t) (authors : list AuthorDict.t)
         (book_count author_count : nat).

(** The field [success] of an envelope. *)
Definition success (b : body) : bool :=
  match b with Failure _ => false | _ => true end.

(** What a view answers: an envelope with its status, or an exception no
    view catches, which Flask turns into a server error. *)
Inductive response :=
| Json (status : Z) (b : body)
| Unhandled (e : exn).

Definition status_code (r : response) : Z :=
  match r with Json s _ => s | Unhandled _ => 500 end.

(** ** The session

    During a request the session keeps, for the book whose collection the
    view builds: the association rows inside the transaction, the
    collection [book.authors] as the list of the ids appended so far, the
    instances of the collection it replaced for as long as the session
    refers to them, and the pending mutations of the unloaded collections
    [author.books] on the other side of the relationship. *)

(** [Book.query.filter_by(isbn=isbn).all()] *)
Definition Book_filter_by_isbn (st : db) (isbn : string) : list (Z * Book.t) :=
  filter (λ b, Book.isbn b.2 = Some isbn) (Book_all st).

(** The pending mutations of the collections [author.books], for the one
    book of the request: the authors whose collection had the book
    appended, and those whose collection had it removed.  Both are sets. *)
Record pending := Pending {
  added_items : gset Z;
  deleted_items : gset Z
}.

(** [author.books.append(book)] on an unloaded collection, as the backref
    of [book.authors.append(author)] does it: an append takes back a
    pending removal, otherwise it is recorded. *)
Definition pending_append (p : pending) (author_id : Z) : pending :=
  if decide (author_id ∈ deleted_items p)
  then Pending (added_items p) (deleted_items p ∖ {[author_id]})
  else Pending ({[author_id]} ∪ added_items p) (deleted_items p).

Record session := Session {
  store : db;              (* the tables inside the transaction *)
  authors : list Z;        (* [book.authors], the ids in the order appended *)
  kept : list Z;           (* the replaced collection, until a flush lets go of it *)
  mutations : pending
}.

(** The flush of the pending mutations for a stored book: the rows of the
    removals are deleted, then the rows of the additions inserted.  The
    side [book.authors] of the relationship finds every pair it would
    write already processed by the other side and writes nothing. *)
Definition flush_collection (st : db) (book_id : Z) (p : pending) : result db :=
  insert_links (delete_links st ((λ a, (book_id, a)) <$> elements (deleted_items p)))
               ((λ a, (book_id, a)) <$> elements (added_items p)).

(** One turn of the loop [author = Author.query.get(author_id); if author:
    book.authors.append(author)] on a stored book.  When the session holds
    the instance, [get] runs no statement.  Otherwise its SELECT first
    flushes what is pending, after which the session refers to the
    instances of [book.authors] only. *)
Definition append_author (book_id : Z) (s : session) (author_id : Z) : result session :=
  if decide (author_id ∈ authors s ++ kept s)
  then Ok (Session (store s) (authors s ++ [author_id]) (kept s)
                   (pending_append (mutations s) author_id))
  else
    st ← flush_collection (store s) book_id (mutations s);
    author ← Author_get st author_id;
    match author with
    | Some _ => Ok (Session st (authors s ++ [author_id]) [] (Pending {[author_id]} ∅))
    | None => Ok (Session st (authors s) [] (Pending ∅ ∅))
    end.

Fixpoint append_authors (book_id : Z) (s : session) (author_ids : list Z) : result session :=
  match author_ids with
  | [] => Ok s
  | author_id :: rest =>
      s' ← append_author book_id s author_id;
      append_authors book_id s' rest
  end.

(** The same turn of the loop on a new book, which is not in the session
    before [db.session.add]: the flush ahead of a SELECT cannot write the
    pending additions and drops them. *)
Definition append_author_new (s : session) (author_id : Z) : result session :=
  if decide (author_id ∈ authors s)
  then Ok (Session (store s) (authors s ++ [author_id]) []
                   (pending_append (mutations s) author_id))
  else
    author ← Author_get (store s) author_id;
    match author with
    | Some _ => Ok (Session (store s) (authors s ++ [author_id]) [] (Pending {[author_id]} ∅))
    | None => Ok (Session (store s) (authors s) [] (Pending ∅ ∅))
    end.

Fixpoint append_authors_new (s : session) (author_ids : list Z) : result session :=
  match author_ids with
  | [] => Ok s
  | author_id :: rest =>
      s' ← append_author_new s author_id;
      append_authors_new s' rest
  end.

(** The session of a request that has appended nothing yet. *)
Definition new_session (st : db) : session := Session st [] [] (Pending ∅ ∅).

(** [book.authors = []] on a stored book: the collection it replaces is
    loaded, and each of its authors has the book removed from
    [author.books]. *)
Definition replace_authors (st : db) (book_id : Z) : session :=
  let old := (Book_authors st book_id).*1 in
  Session st [] old (Pending ∅ (list_to_set old)).

(** The commit of a new [Book]: the row is inserted under a fresh id; then
    the side [author.books] inserts the rows of its pending additions, and
    the side [book.authors] one row per element of the collection the
    other side has not processed. *)
Definition flush_new_book (st : db) (new_book : Book.t) (s : session) : result (Z * db) :=
  let id := next_id (book st) in
  _ ← bind (Book.year new_book);
  st1 ← write_book st id new_book;
  st2 ← insert_links st1 ((λ a, (id, a)) <$> elements (added_items (mutations s)));
  st3 ← insert_links st2
          ((λ a, (id, a)) <$> filter (.∉ added_items (mutations s)) (authors s));
  mret (id, st3).

(** [list(set(objects))]: instances hash by identity and the session holds
    one instance per primary key, so the set is keyed by [id]; the order of
    the list is the set's own. *)
Definition unique {V} (objects : list (Z * V)) : list (Z * V) :=
  map_to_list (list_to_map objects : gmap Z V).

(** [column.ilike(pat)] on a nullable column: NULL matches nothing. *)
Definition column_ilike (column : option string) (pat : string) : bool :=
  match column with
  | Some text => Str.ilike text pat
  | None => false
  end.

(** ** The views

    A view that writes gets the store and gives the store back.  [data] is
    what [request.get_json()] returned, [None] or the JSON object of the
    body; [id] is the integer of the route, whose converter matches digits
    only and sets no upper bound; [now] is the clock [datetime.utcnow]
    reads at an insert. *)

(** GET /api/books *)
Definition get_books (st : db) : response :=
  let books := Book_all st in
  Json 200 (Books (length books) (Book_to_dict st <$> books)).

(** GET /api/books/<id> *)
Definition get_book (st : db) (id : Z) : response :=
  match Book_get st id with
  | Raise e => Unhandled e
  | Ok None => Json 404 (Failure "Book not found")
  | Ok (Some b) => Json 200 (OneBook None (Book_to_dict st (id, b)))
  end.

(** POST /api/books *)
Definition create_book (st : db) (data : option BookData.t) (now : Z) : response * db :=
  match data with
  | None => (Json 400 (Failure "No data provided"), st)
  | Some d =>
      if no_book_data data then (Json 400 (Failure "No data provided"), st)
      else if negb (truthy_str (get (BookData.title d)))
      then (Json 400 (Failure "Title is required"), st)
      else
        let existing :=
          match get (BookData.isbn d) with
          | Some isbn => if Str.truthy isbn then head (Book_filter_by_isbn st isbn) else None
          | None => None
          end in
        match existing with
        | Some _ => (Json 400 (Failure "ISBN already exists"), st)
        | None =>
            let new_book :=
              Book.mk (get (BookData.title d)) (get (BookData.year d))
                      (get (BookData.isbn d)) (Some now) in
            let committed :=
              s ← (if truthy_list (get (BookData.author_ids d))
                   then append_authors_new (new_session st)
                          (default [] (get (BookData.author_ids d)))
                   else Ok (new_session st));
              flush_new_book st new_book s in
            match committed with
            | Raise e => (Unhandled e, st)
            | Ok (id, st') =>
                (Json 201 (OneBook (Some "Book created successfully")
                                   (Book_to_dict st' (id, new_book))), st')
            end
        end
  end.

(** PUT /api/books/<id>.  Without the key [author_ids] the commit writes
    the row.  With it, [book.authors = []] loads the collection it replaces,
    and that SELECT flushes the row first; the loop follows, and the commit
    flushes what is pending then. *)
Definition update_book (st : db) (id : Z) (data : option BookData.t) : response * db :=
  match Book_get st id with
  | Raise e => (Unhandled e, st)
  | Ok None => (Json 404 (Failure "Book not found"), st)
  | Ok (Some b) =>
      match data with
      | None => (Json 400 (Failure "No data provided"), st)
      | Some d =>
          if no_book_data data then (Json 400 (Failure "No data provided"), st)
          else
            let title := match BookData.title d with Some v => v | None => Book.title b end in
            let year := match BookData.year d with Some v => v | None => Book.year b end in
            let isbn := match BookData.isbn d with Some v => v | None => Book.isbn b end in
            let b' := Book.mk title year isbn (Book.created_at b) in
            let committed :=
              _ ← bind_changed (Book.year b) year;
              st1 ← write_book st id b';
              match BookData.author_ids d with
              | None => Ok st1
              | Some None => Raise TypeError
              | Some (Some author_ids) =>
                  s ← append_authors id (replace_authors st1 id) author_ids;
                  flush_collection (store s) id (mutations s)
              end in
            match committed with
            | Raise e => (Unhandled e, st)
            | Ok st' =>
                (Json 200 (OneBook (Some "Book updated successfully")
                                   (Book_to_dict st' (id, b'))), st')
            end
      end
  end.

(** DELETE /api/books/<id>: the flush deletes the association rows of the
    book's collection, then its row. *)
Definition delete_book (st : db) (id : Z) : response * db :=
  match Book_get st id with
  | Raise e => (Unhandled e, st)
  | Ok None => (Json 404 (Failure "Book not found"), st)
  | Ok (Some _) =>
      let links := (λ a, (id, a.1)) <$> Book_authors st id in
      let st1 := delete_links st links in
      (Json 200 (Message "Book deleted successfully"),
       Db (delete id (book st1)) (author st1) (book_author st1))
  end.

(** GET /api/authors *)
Definition get_authors (st : db) : response :=
  let authors := Author_all st in
  Json 200 (Authors (length authors) (Author_to_dict st <$> authors)).

(** GET /api/authors/<id> *)
Definition get_author (st : db) (id : Z) : response :=
  match Author_get st id with
  | Raise e => Unhandled e
  | Ok None => Json 404 (Failure "Author not found")
  | Ok (Some a) => Json 200 (OneAuthor None (Author_to_dict st (id, a)))
  end.

(** POST /api/authors *)
Definition create_author (st : db) (data : option AuthorData.t) (now : Z) : response * db :=
  match data with
  | None => (Json 400 (Failure "No data provided"), st)
  | Some d =>
      if no_author_data data then (Json 400 (Failure "No data provided"), st)
      else if negb (truthy_str (get (AuthorData.name d)))
      then (Json 400 (Failure "Name is required"), st)
      else
        let new_author :=
          Author.mk (get (AuthorData.name d)) (get (AuthorData.birth_year d))
                    (get (AuthorData.country d)) (Some now) in
        let id := next_id (author st) in
        match (_ ← bind (Author.birth_year new_author); write_author st id new_author) with
        | Raise e => (Unhandled e, st)
        | Ok st' =>
            (Json 201 (OneAuthor (Some "Author created successfully")
                                 (Author_to_dict st' (id, new_author))), st')
        end
  end.

(** PUT /api/authors/<id> *)
Definition update_author (st : db) (id : Z) (data : option AuthorData.t) : response * db :=
  match Author_get st id with
  | Raise e => (Unhandled e, st)
  | Ok None => (Json 404 (Failure "Author not found"), st)
  | Ok (Some a) =>
      match data with
      | None => (Json 400 (Failure "No data provided"), st)
      | Some d =>
          if no_author_data data then (Json 400 (Failure "No data provided"), st)
          else
            let name := match AuthorData.name d with Some v => v | None => Author.name a end in
            let birth_year :=
              match AuthorData.birth_year d with Some v => v | None => Author.birth_year a end in
            let country :=
              match AuthorData.country d with Some v => v | None => Author.country a end in
            let a' := Author.mk name birth_year country (Author.created_at a) in
            match (_ ← bind_changed (Author.birth_year a) birth_year;
                   write_author st id a') with
            | Raise e => (Unhandled e, st)
            | Ok st' =>
                (Json 200 (OneAuthor (Some "Author updated successfully")
                                     (Author_to_dict st' (id, a'))), st')
            end
      end
  end.

(** DELETE /api/authors/<id> *)
Definition delete_author (st : db) (id : Z) : response * db :=
  match Author_get st id with
  | Raise e => (Unhandled e, st)
  | Ok None => (Json 404 (Failure "Author not found"), st)
  | Ok (Some _) =>
      let links := (λ b, (b.1, id)) <$> Author_books st id in
      let st1 := delete_links st links in
      (Json 200 (Message "Author deleted successfully"),
       Db (book st1) (delete id (author st1)) (book_author st1))
  end.

(** GET /api/search?q=; [q] is [None] when the parameter is absent. *)
Definition search_all (st : db) (q : option string) : response :=
  let query := Str.strip (default EmptyString q) in
  if negb (Str.truthy query)
  then Json 400 (Failure "Search query is required")
  else
    let books_by_title :=
      filter (λ b, column_ilike (Book.title b.2) (Str.wrap query)) (Book_all st) in
    let authors_by_name :=
      filter (λ a, column_ilike (Author.name a.2) (Str.wrap query)) (Author_all st) in
    let books_by_author_name := authors_by_name ≫= (λ a, Author_books st a.1) in
    let all_books := unique (books_by_title ++ books_by_author_name) in
    let authors_by_book_title := books_by_title ≫= (λ b, Book_authors st b.1) in
    let all_authors := unique (authors_by_name ++ authors_by_book_title) in
    Json 200 (Search query (Book_to_dict st <$> all_books)
                (Author_to_dict st <$> all_authors)
                (length all_books) (length all_authors)).

(** ** Seeding

    [init_db]: when both tables are empty the sample authors, books and
    relationships are committed; [now] stands for the clock of those
    commits. *)

Definition sample_authors (now : Z) : list (Z * Author.t) :=
  [ (1, Author.mk (Some "J.K. Rowling") (Some 1965) (Some "United Kingdom") (Some now));
    (2, Author.mk (Some "George Orwell") (Some 1903) (Some "United Kingdom") (Some now));
    (3, Author.mk (Some "Ernest Hemingway") (Some 1899) (Some "United States") (Some now));
    (4, Author.mk (Some "Agatha Christie") (Some 1890) (Some "United Kingdom") (Some now));
    (5, Author.mk (Some "Stephen King") (Some 1947) (Some "United States") (Some now)) ].

Definition sample_books (now : Z) : list (Z * Book.t) :=
  [ (1, Book.mk (Some "Harry Potter and the Philosopher's Stone") (Some 1997)
                (Some "978-0747532743") (Some now));
    (2, Book.mk (Some "1984") (Some 1949) (Some "978-0451524935") (Some now));
    (3, Book.mk (Some "Animal Farm") (Some 1945) (Some "978-0451526342") (Some now));
    (4, Book.mk (Some "The Old Man and the Sea") (Some 1952) (Some "978-0684801223") (Some now));
    (5, Book.mk (Some "Murder on the Orient Express") (Some 1934)
                (Some "978-0062693662") (Some now));
    (6, Book.mk (Some "The Shining") (Some 1977) (Some "978-0307743657") (Some now));
    (7, Book.mk (Some "Good Omens") (Some 1990) (Some "978-0060853983") (Some now)) ].

Definition sample_links : list (Z * Z) :=
  [ (1, 1); (2, 2); (3, 2); (4, 3); (5, 4); (6, 5); (7, 4); (7, 5) ].

Definition init_db (st : db) (now : Z) : db :=
  if bool_decide (book st = ∅) && bool_decide (author st = ∅)
  then Db (list_to_map (sample_books now)) (list_to_map (sample_authors now))
          (list_to_set sample_links ∪ book_author st)
  else st.

(** ** The constraints of the schema

    [db_ok st]: the store satisfies what the table declarations ask for:
    titles and names are not null, no two books carry the same non-null
    ISBN, and every association row joins a stored book to a stored author. *)

Definition db_ok (st : db) : Prop :=
  map_Forall (λ _ b, is_Some (Book.title b)) (book st) ∧
  map_Forall (λ _ a, is_Some (Author.name a)) (author st) ∧
  map_Forall (λ i b, isbn_unused (book st) i b) (book st) ∧
  set_Forall (λ p, is_Some (book st !! p.1) ∧ is_Some (author st !! p.2)) (book_author st).

#[global] Instance db_ok_dec st : Decision (db_ok st).
Proof. unfold db_ok. apply _. Defined.

(** ISBN uniqueness as the data model words it. *)
Definition isbn_unique (st : db) : Prop :=
  ∀ i j bi bj s,
    book st !! i = Some bi → book st !! j = Some bj →
    Book.isbn bi = Some s → Book.isbn bj = Some s → i = j.

(** The requests that write, and the store they leave. *)
Inductive request :=
| PostBook (data : option BookData.t) (now : Z)
| PutBook (id : Z) (data : option BookData.t)
| DeleteBook (id : Z)
| PostAuthor (data : option AuthorData.t) (now : Z)
| PutAuthor (id : Z) (data : option AuthorData.t)
| DeleteAuthor (id : Z).

Definition handle (st : db) (r : request) : response * db :=
  match r with
  | PostBook data now => create_book st data now
  | PutBook id data => update_book st id data
  | DeleteBook id => delete_book st id
  | PostAuthor data now => create_author st data now
  | PutAuthor id data => update_author st id data
  | DeleteAuthor id => delete_author st id
  end.

(** The stores the application can be in: seeded from an empty store at
    boot, then one request after the other. *)
Inductive reachable : db → Prop :=
| reachable_boot now : reachable (init_db empty_db now)
| reachable_step st r : reachable st → reachable (handle st r).2.

(** ** The search result in the words of the specification

    [B1] and [A1] are the ids of the books and authors the query matches;
    the result sets add to them what is associated with the other side. *)

Definition B1 (st : db) (query : string) : gset Z :=
  dom (filter (λ kv, column_ilike (Book.title kv.2) (Str.wrap query) = true) (book st)).

Definition A1 (st : db) (query : string) : gset Z :=
  dom (filter (λ kv, column_ilike (Author.name kv.2) (Str.wrap query) = true) (author st)).

(** The stored books associated with an author, and the stored authors
    associated with a book. *)
Definition books_of (st : db) (author_id : Z) : gset Z :=
  filter (λ i, (i, author_id) ∈ book_author st) (dom (book st)).

Definition authors_of (st : db) (book_id : Z) : gset Z :=
  filter (λ j, (book_id, j) ∈ book_author st) (dom (author st)).

Definition book_result_set (st : db) (query : string) : gset Z :=
  B1 st query ∪ ⋃ (books_of st <$> elements (A1 st query)).

Definition author_result_set (st : db) (query : string) : gset Z :=
  A1 st query ∪ ⋃ (authors_of st <$> elements (B1 st query)).

(** A string of whitespace only (the empty string included). *)
Fixpoint all_space (s : string) : bool :=
  match s with
  | EmptyString => true
  | String c r => Str.is_space c && all_space r
  end.

(** ** Stores and payloads the examples run on *)

(** The seeded store at clock 0. *)
Definition seeded : db := init_db empty_db 0.

(** Payloads with a single key. *)
Definition only_title (v : option string) : BookData.t :=
  BookData.mk (Some v) None None None [].
Definition only_year (v : option Z) : BookData.t :=
  BookData.mk None (Some v) None None [].
Definition only_isbn (v : option string) : BookData.t :=
  BookData.mk None None (Some v) None [].
Definition only_author_ids (v : option (list Z)) : BookData.t :=
  BookData.mk None None None (Some v) [].
Definition only_name (v : option string) : AuthorData.t :=
  AuthorData.mk (Some v) None None [].
Definition only_birth_year (v : option Z) : AuthorData.t :=
  AuthorData.mk None (Some v) None [].

(** ** Definitions the statements below are worded with *)

(** No two rows of a [book] table carry the same non-null ISBN. *)
Definition table_unique (tbl : gmap Z Book.t) : Prop :=
  ∀ i j bi bj s, tbl !! i = Some bi → tbl !! j = Some bj →
    Book.isbn bi = Some s → Book.isbn bj = Some s → i = j.

(** The two lists [search_all] hands to [set]. *)
Definition found_books (st : db) (query : string) : list (Z * Book.t) :=
  filter (λ b, column_ilike (Book.title b.2) (Str.wrap query)) (Book_all st) ++
  (filter (λ a, column_ilike (Author.name a.2) (Str.wrap query)) (Author_all st)
     ≫= (λ a, Author_books st a.1)).

Definition found_authors (st : db) (query : string) : list (Z * Author.t) :=
  filter (λ a, column_ilike (Author.name a.2) (Str.wrap query)) (Author_all st) ++
  (filter (λ b, column_ilike (Book.title b.2) (Str.wrap query)) (Book_all st)
     ≫= (λ b, Book_authors st b.1)).

(** The row [update_book] writes: a field of the payload when its key is
    present, the stored field otherwise. *)
Definition updated_book (b : Book.t) (d : BookData.t) : Book.t :=
  Book.mk (match BookData.title d with Some v => v | None => Book.title b end)
          (match BookData.year d with Some v => v | None => Book.year b end)
          (match BookData.isbn d with Some v => v | None => Book.isbn b end)
          (Book.created_at b).

(** The row [update_author] writes. *)
Definition updated_author (a : Author.t) (d : AuthorData.t) : Author.t :=
  Author.mk (match AuthorData.name d with Some v => v | None => Author.name a end)
            (match AuthorData.birth_year d with Some v => v | None => Author.birth_year a end)
            (match AuthorData.country d with Some v => v | None => Author.country a end)
            (Author.created_at a).

(** Partial update of one field: [new] is the payload's value when the key
    is present, explicit [null] included, and the stored value [old] when it
    is absent. *)
Definition overwritten {A} (field : option (option A)) (old new : option A) : Prop :=
  match field with
  | Some v => new = v
  | None => new = old
  end.

(** [needle] occurs in [haystack] once both are lower-cased: the
    case-insensitive substring test, with no character read as a wildcard. *)
Definition icontains (needle haystack : string) : bool :=
  Str.contains (Str.lower needle) (Str.lower haystack).

Definition column_icontains (column : option string) (needle : string) : bool :=
  match column with
  | Some text => icontains needle text
  | None => false
  end.

(** The books whose title, and the authors whose name, contain the query as
    a case-insensitive substring. *)
Definition titles_containing (st : db) (query : string) : gset Z :=
  dom (filter (λ kv, column_icontains (Book.title kv.2) query = true) (book st)).

Definition names_containing (st : db) (query : string) : gset Z :=
  dom (filter (λ kv, column_icontains (Author.name kv.2) query = true) (author st)).

(** No book of the seeded store carries the ISBN [s]. *)
Definition seeded_fresh_isbn (s : string) : Prop :=
  map_Forall (λ _ b, Book.isbn b ≠ Some s) (book seeded).

(** More payloads of the examples. *)
Definition blank_title_new_isbn : BookData.t :=
  BookData.mk (Some (Some "")) (Some None) (Some (Some "0-00-000000-0")) None [].

Definition untitled_isbn : BookData.t :=
  BookData.mk (Some (Some "Untitled")) None (Some (Some "")) None [].

Definition null_title_with_author_ids : BookData.t :=
  BookData.mk (Some None) None None (Some (Some [5])) [].

Definition titled (title : string) (isbn : option string) (author_ids : list Z) : BookData.t :=
  BookData.mk (Some (Some title)) None (Some isbn) (Some (Some author_ids)) [].


(** ** What the session will have written

    The notions the lemmas on the session are stated with. *)

(** The rows of [book_author] once the pending mutations [p] of the book
    [book_id] are flushed. *)
Definition pending_links (book_id : Z) (links : gset (Z * Z)) (p : pending) : gset (Z * Z) :=
  set_map (C:=gset Z) (D:=gset (Z * Z)) (λ a, (book_id, a)) (added_items p) ∪
  (links ∖ set_map (C:=gset Z) (D:=gset (Z * Z)) (λ a, (book_id, a)) (deleted_items p)).

(** What every session of a request over the store [st] satisfies: the
    tables [book] and [author] are untouched, the association rows join
    stored rows, and the instances the session refers to are stored
    authors. *)
Definition session_ok (st : db) (s : session) : Prop :=
  book (store s) = book st ∧ author (store s) = author st ∧
  set_Forall (λ p, is_Some (book st !! p.1) ∧ is_Some (author st !! p.2))
             (book_author (store s)) ∧
  set_Forall (λ a, is_Some (author st !! a)) (added_items (mutations s)) ∧
  Forall (λ a, is_Some (author st !! a)) (authors s) ∧
  Forall (λ a, is_Some (author st !! a)) (kept s).

(** What the session of PUT satisfies while the loop has met no author id
    twice: flushing what is pending would leave the book [book_id] joined to
    exactly the authors appended so far and the rows of the other books as
    [st] has them; no pending addition is a row already; an instance kept
    from the replaced collection is either appended again or pending
    removal; and a pending removal is a row of an author not appended. *)
Definition replacing (st : db) (book_id : Z) (s : session) : Prop :=
  book (store s) = book st ∧ author (store s) = author st ∧
  (∀ i a, (i, a) ∈ pending_links book_id (book_author (store s)) (mutations s) ↔
     (i = book_id ∧ a ∈ authors s) ∨ (i ≠ book_id ∧ (i, a) ∈ book_author st)) ∧
  (∀ a, a ∈ added_items (mutations s) → (book_id, a) ∉ book_author (store s)) ∧
  (∀ a, a ∈ kept s → a ∈ authors s ∨ a ∈ deleted_items (mutations s)) ∧
  (∀ a, a ∈ deleted_items (mutations s) →
     (book_id, a) ∈ book_author (store s) ∧ a ∉ authors s) ∧
  (∀ a, (book_id, a) ∈ book_author (store s) → is_Some (author st !! a)) ∧
  (∀ a, a ∈ authors s → is_Some (author st !! a)).

(** What the session of POST satisfies while the loop has met no author id
    twice: the store is [st], nothing is pending removal, the pending
    additions are among the authors appended, and these are stored authors,
    each appended once. *)
Definition collecting (st : db) (s : session) : Prop :=
  store s = st ∧
  (∀ a, a ∈ added_items (mutations s) → a ∈ authors s) ∧
  (∀ a, a ∈ authors s → is_Some (author st !! a)) ∧
  NoDup (authors s).

(** The rowids in use leave room for one more: the rowid SQLite gives next
    is the largest one plus 1 as long as that is a 64-bit integer. *)
Definition has_room {V} (tbl : gmap Z V) : Prop := int64 (next_id tbl).

#[global] Instance has_room_dec {V} (tbl : gmap Z V) : Decision (has_room tbl).
Proof. unfold has_room. apply _. Defined.

(** The integers of a payload fit SQLite's INTEGER. *)
Definition book_data_fits (d : BookData.t) : Prop :=
  bound (get (BookData.year d)) ∧
  Forall int64 (default [] (get (BookData.author_ids d))).

#[global] Instance book_data_fits_dec d : Decision (book_data_fits d).
Proof. unfold book_data_fits. apply _. Defined.

Definition author_data_fits (d : AuthorData.t) : Prop :=
  bound (get (AuthorData.birth_year d)).

#[global] Instance author_data_fits_dec d : Decision (author_data_fits d).
Proof. unfold author_data_fits. apply _. Defined.

(** ** The requests that read

    The views that only read the store, and what each answers. *)
Inductive lookup :=
| GetBooks
| GetBook (id : Z)
| GetAuthors
| GetAuthor (id : Z)
| SearchAll (q : option string).

Definition answer (st : db) (r : lookup) : response :=
  match r with
  | GetBooks => get_books st
  | GetBook id => get_book st id
  | GetAuthors => get_authors st
  | GetAuthor id => get_author st id
  | SearchAll q => search_all st q
  end.

(** The request was answered 200 or 201. *)
Definition answered (r : response) : bool :=
  (status_code r =? 200) || (status_code r =? 201).

(** What a search envelope holds besides the echo of the query. *)
Definition search_results (r : response)
    : option (list BookDict.t * list AuthorDict.t * nat * nat) :=
  match r with
  | Json _ (Search _ books authors book_count author_count) =>
      Some (books, authors, book_count, author_count)
  | _ => None
  end.

(** The payload [d] with the value of its key [author_ids] replaced. *)
Definition with_author_ids (d : BookData.t) (v : option (list Z)) : BookData.t :=
  BookData.mk (BookData.title d) (BookData.year d) (BookData.isbn d) (Some v)
              (BookData.others d).

(** The text, lower-cased, holds [q1] and later [q2], both lower-cased, with
    anything between them; and the same with exactly one character between
    them. *)
Definition holds_with_gap (q1 q2 text : string) : Prop :=
  ∃ pre mid post,
    Str.lower text = pre +:+ Str.lower q1 +:+ mid +:+ Str.lower q2 +:+ post.

Definition holds_one_apart (q1 q2 text : string) : Prop :=
  ∃ pre c post,
    Str.lower text = pre +:+ Str.lower q1 +:+ String c (Str.lower q2 +:+ post).

(** Two answers of the search carry the same books, the same authors and the
    same counts, in whatever order the set behind each list gave them. *)
Definition same_results (r r' : response) : Prop :=
  match search_results r, search_results r' with
  | Some (books, authors, book_count, author_count),
    Some (books', authors', book_count', author_count') =>
      books ≡ₚ books' ∧ authors ≡ₚ authors' ∧
      book_count = book_count' ∧ author_count = author_count'
  | None, None => True
  | _, _ => False
  end.

(** ** Tactics *)

Ltac split_db_ok := split; [|split; [|split]]; simpl.

(** Settles a decidable proposition about concrete data by evaluation. *)
Ltac by_compute P := apply (bool_decide_unpack P); vm_compute; exact I.


(** ** Stripping a query *)

Section strings.
Lemma rstrip_empty s : Str.rstrip s = EmptyString ↔ all_space s = true.
Proof.
  induction s as [|c r IH]; simpl; [done|].
  destruct (Str.rstrip r) eqn:E.
  - destruct (Str.is_space c); simpl; [tauto|].
    split; [discriminate | intros [=]].
  - split; [discriminate|].
    intros [_ H]%andb_true_iff. apply IH in H. discriminate.
Qed.

Lemma all_space_lstrip s : all_space (Str.lstrip s) = all_space s.
Proof.
  induction s as [|c r IH]; simpl; [done|].
  destruct (Str.is_space c) eqn:E; simpl; [done|]. by rewrite E.
Qed.

Lemma strip_empty s : Str.strip s = EmptyString ↔ all_space s = true.
Proof. unfold Str.strip. by rewrite rstrip_empty, all_space_lstrip. Qed.

Lemma truthy_strip s : Str.truthy (Str.strip s) = negb (all_space s).
Proof.
  destruct (all_space s) eqn:E.
  - apply strip_empty in E. by rewrite E.
  - destruct (Str.strip s) eqn:F; [|done].
    apply strip_empty in F. congruence.
Qed.
End strings.

(** ** Statements of the store *)

Section store.
Implicit Types (st : db) (ps : list (Z * Z)).

Lemma foldr_max_ge (k x : Z) (xs : list Z) : k ∈ x :: xs → k ≤ foldr Z.max x xs.
Proof.
  induction xs as [|y ys IH]; simpl.
  - intros ->%list_elem_of_singleton. lia.
  - rewrite !elem_of_cons. intros [->|[->|H]].
    + assert (x ≤ foldr Z.max x ys) by (apply IH; left). lia.
    + lia.
    + assert (k ≤ foldr Z.max x ys) by (apply IH; by right). lia.
Qed.

Lemma next_id_fresh {V} (tbl : gmap Z V) : tbl !! next_id tbl = None.
Proof.
  destruct (tbl !! next_id tbl) as [v|] eqn:E; [|done].
  assert (next_id tbl ∈ (map_to_list tbl).*1) as Hin.
  { apply list_elem_of_fmap. exists (next_id tbl, v). split; [done|].
    by apply elem_of_map_to_list. }
  unfold next_id in Hin at 1. unfold next_id in E.
  destruct ((map_to_list tbl).*1) as [|k ks]; [by apply elem_of_nil in Hin|].
  apply foldr_max_ge in Hin. lia.
Qed.

Lemma insert_link_tables st p st' :
  insert_link st p = Ok st' → book st' = book st ∧ author st' = author st.
Proof. unfold insert_link. case_decide; [done|]. by intros [= <-]. Qed.

Lemma insert_links_tables st ps st' :
  insert_links st ps = Ok st' → book st' = book st ∧ author st' = author st.
Proof.
  revert st. induction ps as [|p ps IH]; intros st; simpl.
  - by intros [= <-].
  - destruct (insert_link st p) as [st1|] eqn:E; simpl; [|done].
    intros [-> ->]%IH. by apply insert_link_tables in E.
Qed.

Lemma insert_links_ok st ps :
  NoDup ps → (∀ p, p ∈ ps → p ∉ book_author st) →
  insert_links st ps =
    Ok (Db (book st) (author st) (list_to_set ps ∪ book_author st)).
Proof.
  revert st. induction ps as [|p ps IH]; intros st Hnd Hnew; simpl.
  - destruct st. simpl. f_equal. f_equal. set_solver.
  - apply NoDup_cons in Hnd as [Hp Hnd].
    unfold insert_link. rewrite decide_False by (apply Hnew; left). simpl.
    rewrite IH; [|done|]; simpl.
    + f_equal. f_equal. set_solver.
    + intros q Hq. specialize (Hnew q (list_elem_of_further _ _ _ Hq)). set_solver.
Qed.
End store.

(** ** The constraints are kept by every statement *)

Section invariant.
Implicit Types (st : db) (ps : list (Z * Z)) (tbl : gmap Z Book.t).

Lemma isbn_unused_spec tbl id b :
  isbn_unused tbl id b ↔
  ∀ s j bj, Book.isbn b = Some s → tbl !! j = Some bj → Book.isbn bj = Some s → j = id.
Proof.
  unfold isbn_unused. destruct (Book.isbn b) as [s|]; [|naive_solver].
  unfold map_Forall. split.
  - intros H s' j bj [= <-] Hj Hs. destruct (H j bj Hj); [done|congruence].
  - intros H j bj Hj. destruct (decide (j = id)); [by left|right].
    intros Hs. by specialize (H s j bj eq_refl Hj Hs).
Qed.

Lemma table_unique_spec tbl :
  map_Forall (λ i b, isbn_unused tbl i b) tbl ↔ table_unique tbl.
Proof.
  unfold map_Forall, table_unique. split.
  - intros H i j bi bj s Hi Hj Hsi Hsj.
    symmetry. eapply (proj1 (isbn_unused_spec tbl i bi)); eauto.
  - intros H i bi Hi. apply isbn_unused_spec. intros s j bj Hs Hj Hsj.
    eauto.
Qed.

Lemma table_unique_insert tbl id b :
  table_unique tbl → isbn_unused tbl id b → table_unique (<[id:=b]> tbl).
Proof.
  intros Hu Hb i j bi bj s Hi Hj Hsi Hsj.
  rewrite isbn_unused_spec in Hb.
  destruct (decide (i = id)) as [->|Hi'], (decide (j = id)) as [->|Hj'];
    simplify_map_eq; eauto.
  symmetry. eauto.
Qed.

Lemma table_unique_delete tbl id : table_unique tbl → table_unique (delete id tbl).
Proof.
  intros Hu i j bi bj s Hi%lookup_delete_Some Hj%lookup_delete_Some.
  destruct Hi, Hj. eauto.
Qed.

Lemma db_ok_isbn_unique st : db_ok st → isbn_unique st.
Proof. intros (_ & _ & Hu & _). by apply table_unique_spec in Hu. Qed.

Lemma db_ok_links st i a :
  db_ok st → (i, a) ∈ book_author st → is_Some (book st !! i) ∧ is_Some (author st !! a).
Proof. intros (_ & _ & _ & Hl) Hin. exact (Hl _ Hin). Qed.

Lemma write_book_ok st id b :
  is_Some (Book.title b) → isbn_unused (book st) id b →
  write_book st id b = Ok (Db (<[id:=b]> (book st)) (author st) (book_author st)).
Proof.
  intros [t Ht] Hu. unfold write_book. rewrite Ht. by rewrite decide_True.
Qed.

Lemma write_book_inv st id b st' :
  write_book st id b = Ok st' →
  is_Some (Book.title b) ∧ isbn_unused (book st) id b ∧
  st' = Db (<[id:=b]> (book st)) (author st) (book_author st).
Proof.
  unfold write_book. destruct (Book.title b) eqn:Ht; [|done].
  case_decide; [|done]. intros [= <-]. eauto.
Qed.

Lemma write_book_db_ok st id b st' :
  db_ok st → write_book st id b = Ok st' → db_ok st'.
Proof.
  intros (Ht & Hn & Hu & Hl) (Hb & Hfree & ->)%write_book_inv.
  split_db_ok.
  - by apply map_Forall_insert_2.
  - done.
  - apply table_unique_spec, table_unique_insert; [|done].
    by apply table_unique_spec.
  - intros p Hp. destruct (Hl p Hp) as [H1 H2]. split; [|done].
    apply lookup_insert_is_Some'. by right.
Qed.

Lemma write_author_inv st id a st' :
  write_author st id a = Ok st' →
  is_Some (Author.name a) ∧
  st' = Db (book st) (<[id:=a]> (author st)) (book_author st).
Proof.
  unfold write_author. destruct (Author.name a) eqn:Hn; [|done].
  intros [= <-]. eauto.
Qed.

Lemma write_author_db_ok st id a st' :
  db_ok st → write_author st id a = Ok st' → db_ok st'.
Proof.
  intros (Ht & Hn & Hu & Hl) (Ha & ->)%write_author_inv.
  split_db_ok; [done| |done|].
  - by apply map_Forall_insert_2.
  - intros p Hp. destruct (Hl p Hp) as [H1 H2]. split; [done|].
    apply lookup_insert_is_Some'. by right.
Qed.

Lemma delete_links_db_ok st ps : db_ok st → db_ok (delete_links st ps).
Proof.
  intros (Ht & Hn & Hu & Hl). split_db_ok; [done..|].
  intros p Hp. apply Hl. set_solver.
Qed.

Lemma insert_links_inv st ps st' :
  insert_links st ps = Ok st' →
  st' = Db (book st) (author st) (list_to_set ps ∪ book_author st).
Proof.
  revert st. induction ps as [|p ps IH]; intros st; simpl.
  - intros [= <-]. destruct st; simpl. f_equal. set_solver.
  - unfold insert_link at 1. case_decide; [done|]. simpl.
    intros ->%IH. simpl. f_equal. set_solver.
Qed.

Lemma insert_links_db_ok st ps st' :
  db_ok st →
  (∀ p, p ∈ ps → is_Some (book st !! p.1) ∧ is_Some (author st !! p.2)) →
  insert_links st ps = Ok st' → db_ok st'.
Proof.
  intros (Ht & Hn & Hu & Hl) Hps ->%insert_links_inv.
  split_db_ok; [done..|].
  intros p [Hp%elem_of_list_to_set|Hp]%elem_of_union; [by apply Hps|by apply Hl].
Qed.
End invariant.

(** ** Relationships *)

Section relationships.
Implicit Types (st : db) (ids : list Z).

Lemma elem_of_Book_authors st id a row :
  (a, row) ∈ Book_authors st id ↔ author st !! a = Some row ∧ (id, a) ∈ book_author st.
Proof.
  unfold Book_authors, Author_all. rewrite list_elem_of_filter, elem_of_map_to_list.
  simpl. tauto.
Qed.

Lemma elem_of_Author_books st a i row :
  (i, row) ∈ Author_books st a ↔ book st !! i = Some row ∧ (i, a) ∈ book_author st.
Proof.
  unfold Author_books, Book_all. rewrite list_elem_of_filter, elem_of_map_to_list.
  simpl. tauto.
Qed.

Lemma elem_of_Book_authors_ids st id a :
  a ∈ (Book_authors st id).*1 ↔ is_Some (author st !! a) ∧ (id, a) ∈ book_author st.
Proof.
  rewrite list_elem_of_fmap. split.
  - intros ([a' row] & -> & [H1 H2]%elem_of_Book_authors). eauto.
  - intros [[row Hrow] Hl]. exists (a, row). split; [done|].
    by apply elem_of_Book_authors.
Qed.

Lemma elem_of_Author_books_ids st a i :
  i ∈ (Author_books st a).*1 ↔ is_Some (book st !! i) ∧ (i, a) ∈ book_author st.
Proof.
  rewrite list_elem_of_fmap. split.
  - intros ([i' row] & -> & [H1 H2]%elem_of_Author_books). eauto.
  - intros [[row Hrow] Hl]. exists (i, row). split; [done|].
    by apply elem_of_Author_books.
Qed.

(** [Book_authors] reads the tables [author] and [book_author] only. *)
Lemma Book_authors_ext st1 st2 id :
  author st1 = author st2 → book_author st1 = book_author st2 →
  Book_authors st1 id = Book_authors st2 id.
Proof. unfold Book_authors, Author_all. by intros -> ->. Qed.
End relationships.

(** ** Binding integers *)

Section binding.
Lemma bind_ok v : bound v → bind v = Ok tt.
Proof. intros H. unfold bind. by rewrite decide_True. Qed.

Lemma bind_inv v u : bind v = Ok u → bound v.
Proof. unfold bind. by case_decide. Qed.

Lemma bind_raises v e : bind v = Raise e → e = OverflowError ∧ ¬ bound v.
Proof. unfold bind. case_decide; [done|]. by intros [= <-]. Qed.

Lemma bind_changed_ok old new : bound new → bind_changed old new = Ok tt.
Proof. intros H. unfold bind_changed. case_decide; [done|by apply bind_ok]. Qed.

Lemma bind_changed_same v : bind_changed v v = Ok tt.
Proof. unfold bind_changed. by rewrite decide_True. Qed.

Lemma Book_get_ok st id : int64 id → Book_get st id = Ok (book st !! id).
Proof. intros H. unfold Book_get. by rewrite decide_True. Qed.

Lemma Author_get_ok st id : int64 id → Author_get st id = Ok (author st !! id).
Proof. intros H. unfold Author_get. by rewrite decide_True. Qed.

Lemma Book_get_inv st id o : Book_get st id = Ok o → int64 id ∧ o = book st !! id.
Proof. unfold Book_get. case_decide; [|done]. by intros [= <-]. Qed.

Lemma Author_get_inv st id o : Author_get st id = Ok o → int64 id ∧ o = author st !! id.
Proof. unfold Author_get. case_decide; [|done]. by intros [= <-]. Qed.

Lemma Book_get_raises st id e : Book_get st id = Raise e → e = OverflowError ∧ ¬ int64 id.
Proof. unfold Book_get. case_decide; [done|]. by intros [= <-]. Qed.

Lemma Author_get_raises st id e : Author_get st id = Raise e → e = OverflowError ∧ ¬ int64 id.
Proof. unfold Author_get. case_decide; [done|]. by intros [= <-]. Qed.
End binding.

(** ** The flush of pending mutations *)

Section flush.
Implicit Types (st : db) (s : session) (p : pending) (ids : list Z) (book_id i a x : Z).

Lemma elem_of_pending_links book_id (links : gset (Z * Z)) p i a :
  (i, a) ∈ pending_links book_id links p ↔
  (i = book_id ∧ a ∈ added_items p) ∨
  ((i, a) ∈ links ∧ ¬ (i = book_id ∧ a ∈ deleted_items p)).
Proof.
  unfold pending_links. rewrite elem_of_union, elem_of_difference, !elem_of_map.
  naive_solver.
Qed.

Lemma flush_collection_inv st book_id p st' :
  flush_collection st book_id p = Ok st' →
  st' = Db (book st) (author st) (pending_links book_id (book_author st) p).
Proof. unfold flush_collection. by intros ->%insert_links_inv. Qed.

Lemma flush_collection_ok st book_id p :
  (∀ a, a ∈ added_items p → (book_id, a) ∉ book_author st) →
  flush_collection st book_id p =
    Ok (Db (book st) (author st) (pending_links book_id (book_author st) p)).
Proof.
  intros Hnew. unfold flush_collection. rewrite insert_links_ok; [done| |].
  - apply NoDup_fmap_2; [intros x y [=]; done|]. apply NoDup_elements.
  - intros q (a & -> & Ha%elem_of_elements)%list_elem_of_fmap. simpl.
    rewrite elem_of_difference. intros [Hl _]. by apply (Hnew a).
Qed.

Lemma pending_append_added p a x :
  x ∈ added_items (pending_append p a) → x = a ∨ x ∈ added_items p.
Proof. unfold pending_append. case_decide; simpl; set_solver. Qed.
End flush.

(** ** What every session keeps *)

Section session.
Implicit Types (st : db) (s : session) (p : pending) (ids : list Z) (book_id i a x : Z).

Lemma new_session_ok st : db_ok st → session_ok st (new_session st).
Proof.
  intros (_ & _ & _ & Hl). unfold session_ok, new_session. simpl.
  split_and!; try done.
Qed.

Lemma replace_authors_ok st book_id : db_ok st → session_ok st (replace_authors st book_id).
Proof.
  intros (_ & _ & _ & Hl). unfold session_ok, replace_authors. simpl.
  split_and!; try done.
  apply Forall_forall. by intros a [Ha _]%elem_of_Book_authors_ids.
Qed.

Lemma flushed_session_ok st book_id s st' :
  is_Some (book st !! book_id) → session_ok st s →
  flush_collection (store s) book_id (mutations s) = Ok st' →
  book st' = book st ∧ author st' = author st ∧
  set_Forall (λ q : Z * Z, is_Some (book st !! q.1) ∧ is_Some (author st !! q.2))
             (book_author st').
Proof.
  intros Hb (Hbook & Hauthor & Hlinks & Hadd & _) ->%flush_collection_inv. simpl.
  split; [done|]. split; [done|].
  intros [i a] [[-> Ha]|[Hl _]]%elem_of_pending_links; simpl.
  - split; [done|by apply Hadd].
  - exact (Hlinks _ Hl).
Qed.

Lemma append_author_session_ok st book_id s a s' :
  is_Some (book st !! book_id) → session_ok st s →
  append_author book_id s a = Ok s' → session_ok st s'.
Proof.
  intros Hb Hs. pose proof Hs as (Hbook & Hauthor & Hlinks & Hadd & Hauths & Hkept).
  unfold append_author. case_decide as Hhit.
  - intros [= <-].
    assert (is_Some (author st !! a)) as Ha.
    { apply elem_of_app in Hhit as [H|H].
      - exact (proj1 (Forall_forall _ _) Hauths _ H).
      - exact (proj1 (Forall_forall _ _) Hkept _ H). }
    unfold session_ok; simpl. split_and!; try done.
    + intros x [->|Hx]%pending_append_added; [done|by apply Hadd].
    + apply Forall_app. split; [done|]. by constructor.
  - destruct (flush_collection (store s) book_id (mutations s)) as [st1|] eqn:E;
      simpl; [|done].
    destruct (flushed_session_ok _ _ _ _ Hb Hs E) as (Hbook1 & Hauthor1 & Hlinks1).
    destruct (Author_get st1 a) as [o|] eqn:G; simpl; [|done].
    apply Author_get_inv in G as [_ ->]. rewrite Hauthor1.
    destruct (author st !! a) as [row|] eqn:Ea; intros [= <-];
      unfold session_ok; simpl; split_and!; try done.
    + intros x ->%elem_of_singleton. by eexists.
    + apply Forall_app. split; [done|]. constructor; [by eexists|constructor].
Qed.

Lemma append_authors_session_ok st book_id ids s s' :
  is_Some (book st !! book_id) → session_ok st s →
  append_authors book_id s ids = Ok s' → session_ok st s'.
Proof.
  intros Hb. revert s. induction ids as [|a ids IH]; intros s Hs; simpl.
  - by intros [= <-].
  - destruct (append_author book_id s a) as [s1|] eqn:E; simpl; [|done].
    apply IH. by eapply append_author_session_ok.
Qed.

Lemma append_author_new_session_ok st s a s' :
  session_ok st s → append_author_new s a = Ok s' →
  session_ok st s' ∧ store s' = store s.
Proof.
  intros Hs. pose proof Hs as (Hbook & Hauthor & Hlinks & Hadd & Hauths & Hkept).
  unfold append_author_new. case_decide as Hhit.
  - intros [= <-]. split; [|done].
    assert (is_Some (author st !! a)) as Ha
      by exact (proj1 (Forall_forall _ _) Hauths _ Hhit).
    unfold session_ok; simpl. split_and!; try done.
    + intros x [->|Hx]%pending_append_added; [done|by apply Hadd].
    + apply Forall_app. split; [done|]. by constructor.
  - destruct (Author_get (store s) a) as [o|] eqn:G; simpl; [|done].
    apply Author_get_inv in G as [_ ->]. rewrite Hauthor.
    destruct (author st !! a) as [row|] eqn:Ea; intros [= <-]; (split; [|done]);
      unfold session_ok; simpl; split_and!; try done.
    + intros x ->%elem_of_singleton. by eexists.
    + apply Forall_app. split; [done|]. constructor; [by eexists|constructor].
Qed.

Lemma append_authors_new_session_ok st ids s s' :
  session_ok st s → append_authors_new s ids = Ok s' →
  session_ok st s' ∧ store s' = store s.
Proof.
  revert s. induction ids as [|a ids IH]; intros s Hs; simpl.
  - by intros [= <-].
  - destruct (append_author_new s a) as [s1|] eqn:E; simpl; [|done].
    destruct (append_author_new_session_ok _ _ _ _ Hs E) as [Hs1 <-]. by apply IH.
Qed.
(** The loops write no row of [book] or [author]. *)
Lemma append_author_tables book_id s a s' :
  append_author book_id s a = Ok s' →
  book (store s') = book (store s) ∧ author (store s') = author (store s).
Proof.
  unfold append_author. case_decide; [by intros [= <-]|].
  destruct (flush_collection (store s) book_id (mutations s)) as [st1|] eqn:E;
    simpl; [|done].
  apply flush_collection_inv in E as ->.
  destruct (Author_get _ a) as [[row|]|]; simpl; [| |done]; by intros [= <-].
Qed.

Lemma append_authors_tables book_id ids s s' :
  append_authors book_id s ids = Ok s' →
  book (store s') = book (store s) ∧ author (store s') = author (store s).
Proof.
  revert s. induction ids as [|a ids IH]; intros s; simpl.
  - by intros [= <-].
  - destruct (append_author book_id s a) as [s1|] eqn:E; simpl; [|done].
    apply append_author_tables in E as [<- <-]. apply IH.
Qed.

Lemma append_author_new_store s a s' : append_author_new s a = Ok s' → store s' = store s.
Proof.
  unfold append_author_new. case_decide; [by intros [= <-]|].
  destruct (Author_get _ a) as [[row|]|]; simpl; [| |done]; by intros [= <-].
Qed.

Lemma append_authors_new_store ids s s' :
  append_authors_new s ids = Ok s' → store s' = store s.
Proof.
  revert s. induction ids as [|a ids IH]; intros s; simpl.
  - by intros [= <-].
  - destruct (append_author_new s a) as [s1|] eqn:E; simpl; [|done].
    apply append_author_new_store in E as <-. apply IH.
Qed.
End session.

(** ** The loop over author ids that do not repeat *)

Section replacing.
Implicit Types (st : db) (s : session) (p : pending) (ids : list Z) (book_id i a x : Z).

Lemma replace_authors_replacing st book_id :
  db_ok st → replacing st book_id (replace_authors st book_id).
Proof.
  intros Hok. unfold replacing, replace_authors. simpl. split_and!; try done.
  - intros i a. rewrite elem_of_pending_links. simpl.
    rewrite elem_of_list_to_set, elem_of_Book_authors_ids. split.
    + intros [[_ H]|[Hl Hnot]]; [set_solver|]. right. split; [|done].
      intros ->. apply Hnot. split; [done|]. split; [|done].
      by destruct (db_ok_links _ _ _ Hok Hl).
    + intros [[_ H]|[Hne Hl]]; [by apply elem_of_nil in H|].
      right. split; [done|]. by intros [? _].
  - intros a Ha. right. by apply elem_of_list_to_set.
  - intros a [_ Hl]%elem_of_list_to_set%elem_of_Book_authors_ids. split; [done|].
    by intros ?%elem_of_nil.
  - intros a Hl. by destruct (db_ok_links _ _ _ Hok Hl).
  - by intros a ?%elem_of_nil.
Qed.

Lemma append_author_replacing st book_id s a :
  int64 a → a ∉ authors s → replacing st book_id s →
  ∃ s', append_author book_id s a = Ok s' ∧ replacing st book_id s' ∧
        ∀ x, x ∈ authors s' ↔ x ∈ authors s ∨ (x = a ∧ is_Some (author st !! a)).
Proof.
  intros Hr Hnew (Hbook & Hauthor & Hpl & Hadd & Hkept & Hdel & Hstored & Hauths).
  unfold append_author. case_decide as Hhit.
  - assert (a ∈ kept s) as Hk by (apply elem_of_app in Hhit as [|]; done).
    destruct (Hkept a Hk) as [|Hd]; [done|].
    destruct (Hdel a Hd) as [Hl _].
    assert (is_Some (author st !! a)) as Ha by by apply Hstored.
    eexists. split; [reflexivity|]. unfold pending_append. rewrite decide_True by done.
    split.
    + unfold replacing; simpl. split_and!; try done.
      * intros i x. specialize (Hpl i x). rewrite elem_of_pending_links in Hpl.
        rewrite elem_of_pending_links. simpl.
        rewrite elem_of_app, list_elem_of_singleton, elem_of_difference, elem_of_singleton.
        destruct (decide (x = a)) as [->|Hx].
        -- destruct (decide (i = book_id)) as [->|Hi].
           ++ split; [intros _; left; auto|]. intros _. right. split; [done|].
              intros [_ [_ ?]]. done.
           ++ clear -Hpl Hi. tauto.
        -- clear -Hpl Hx. tauto.
      * intros x Hx. rewrite elem_of_app, list_elem_of_singleton, elem_of_difference,
          elem_of_singleton.
        destruct (decide (x = a)) as [->|Hne]; [by left; right|].
        destruct (Hkept x Hx) as [|]; [by left; left|by right].
      * intros x [Hx Hne]%elem_of_difference. destruct (Hdel x Hx) as [? ?].
        split; [done|]. rewrite elem_of_app, list_elem_of_singleton.
        rewrite elem_of_singleton in Hne. tauto.
      * intros x [Hx|Hx%list_elem_of_singleton]%elem_of_app; [by apply Hauths|by subst].
    + intros x. simpl. rewrite elem_of_app, list_elem_of_singleton. naive_solver.
  - rewrite flush_collection_ok by done. simpl.
    rewrite Author_get_ok by done. simpl. rewrite Hauthor.
    assert (Hfresh : (book_id, a) ∉ pending_links book_id (book_author (store s)) (mutations s)).
    { rewrite Hpl. intros [[_ ?]|[? _]]; done. }
    destruct (author st !! a) as [row|] eqn:Ea.
    + eexists. split; [reflexivity|]. split.
      * unfold replacing; simpl. split_and!.
        -- done.
        -- done.
        -- intros i x. rewrite elem_of_pending_links. simpl.
           rewrite elem_of_app, list_elem_of_singleton, elem_of_singleton, Hpl.
           clear. set_solver.
        -- by intros x ->%elem_of_singleton.
        -- by intros x ?%elem_of_nil.
        -- intros x Hx. set_solver.
        -- intros x [[_ Hx]|[? _]]%Hpl; [by apply Hauths|done].
        -- intros x [Hx|Hx%list_elem_of_singleton]%elem_of_app;
             [by apply Hauths|subst; by eexists].
      * intros x. simpl. rewrite elem_of_app, list_elem_of_singleton.
        split; [intros [?|Hx]; [by left|subst; eauto]|]. intros [?|[Hx _]]; auto.
    + eexists. split; [reflexivity|]. split.
      * unfold replacing; simpl. split_and!.
        -- done.
        -- done.
        -- intros i x. rewrite elem_of_pending_links. simpl. rewrite Hpl.
           clear. set_solver.
        -- intros x Hx. set_solver.
        -- by intros x ?%elem_of_nil.
        -- intros x Hx. set_solver.
        -- intros x [[_ Hx]|[? _]]%Hpl; [by apply Hauths|done].
        -- done.
      * intros x. simpl. split; [auto|]. intros [?|[Hx [? ?]]]; [done|subst; congruence].
Qed.

Lemma append_authors_replacing st book_id ids s :
  NoDup ids → Forall int64 ids → (∀ a, a ∈ ids → a ∉ authors s) →
  replacing st book_id s →
  ∃ s', append_authors book_id s ids = Ok s' ∧ replacing st book_id s' ∧
        ∀ x, x ∈ authors s' ↔ x ∈ authors s ∨ (x ∈ ids ∧ is_Some (author st !! x)).
Proof.
  intros Hnd. revert s. induction Hnd as [|a ids Ha Hnd IH]; intros s Hr Hnew Hs; simpl.
  - exists s. split; [done|]. split; [done|]. intros x. rewrite elem_of_nil. tauto.
  - apply Forall_cons in Hr as [Hra Hr].
    destruct (append_author_replacing st book_id s a Hra) as (s1 & -> & Hs1 & Hin1);
      [apply Hnew; left|done|]. simpl.
    destruct (IH s1 Hr) as (s' & -> & Hs' & Hin'); [|done|].
    + intros x Hx [Hold|[Heq _]]%Hin1; [|by subst].
      by apply (Hnew x); [right|].
    + exists s'. split; [done|]. split; [done|].
      intros x. rewrite Hin', Hin1, elem_of_cons. naive_solver.
Qed.

(** The rows after PUT replaced the collection of the book [book_id] by the
    authors the ids name, no id twice. *)
Lemma replace_collection st book_id ids :
  db_ok st → NoDup ids → Forall int64 ids →
  ∃ s links,
    append_authors book_id (replace_authors st book_id) ids = Ok s ∧
    flush_collection (store s) book_id (mutations s) =
      Ok (Db (book st) (author st) links) ∧
    ∀ i a, (i, a) ∈ links ↔
      (i = book_id ∧ a ∈ ids ∧ is_Some (author st !! a)) ∨
      (i ≠ book_id ∧ (i, a) ∈ book_author st).
Proof.
  intros Hok Hnd Hr.
  destruct (append_authors_replacing st book_id ids (replace_authors st book_id) Hnd Hr)
    as (s & Heq & (Hbook & Hauthor & Hpl & Hadd & _) & Hin);
    [by intros a _ ?%elem_of_nil|by apply replace_authors_replacing|].
  exists s, (pending_links book_id (book_author (store s)) (mutations s)).
  split; [done|]. split.
  - rewrite flush_collection_ok by done. by rewrite Hbook, Hauthor.
  - intros i a. rewrite Hpl, Hin. simpl. rewrite elem_of_nil. tauto.
Qed.
End replacing.

(** ** The collection of a new book *)

Section collecting.
Implicit Types (st : db) (s : session) (p : pending) (ids : list Z) (book_id i a x : Z).

Lemma new_session_collecting st : collecting st (new_session st).
Proof.
  unfold collecting, new_session. simpl. split_and!.
  - done.
  - intros a Ha. set_solver.
  - by intros a ?%elem_of_nil.
  - constructor.
Qed.

Lemma append_author_new_collecting st s a :
  int64 a → a ∉ authors s → collecting st s →
  ∃ s', append_author_new s a = Ok s' ∧ collecting st s' ∧
        ∀ x, x ∈ authors s' ↔ x ∈ authors s ∨ (x = a ∧ is_Some (author st !! a)).
Proof.
  intros Hr Hnew (Hstore & Hadd & Hauths & Hnd).
  unfold append_author_new. rewrite decide_False by done.
  rewrite Author_get_ok by done. simpl. rewrite Hstore.
  destruct (author st !! a) as [row|] eqn:Ea.
  - eexists. split; [reflexivity|]. split.
    + unfold collecting; simpl. split_and!.
      * done.
      * intros x Hx%elem_of_singleton. subst. rewrite elem_of_app, list_elem_of_singleton.
        by right.
      * intros x [Hx|Hx%list_elem_of_singleton]%elem_of_app;
          [by apply Hauths|subst; by eexists].
      * apply NoDup_app. split; [done|]. split; [|apply NoDup_singleton].
        intros x Hx Hx'%list_elem_of_singleton. by subst.
    + intros x. simpl. rewrite elem_of_app, list_elem_of_singleton.
      split; [intros [?|Hx]; [by left|subst; eauto]|]. intros [?|[Hx _]]; auto.
  - eexists. split; [reflexivity|]. split.
    + unfold collecting; simpl. split_and!; [done| |done|done].
      intros x Hx. set_solver.
    + intros x. simpl. split; [auto|]. intros [?|[Hx [? ?]]]; [done|subst; congruence].
Qed.

Lemma append_authors_new_collecting st ids s :
  NoDup ids → Forall int64 ids → (∀ a, a ∈ ids → a ∉ authors s) →
  collecting st s →
  ∃ s', append_authors_new s ids = Ok s' ∧ collecting st s' ∧
        ∀ x, x ∈ authors s' ↔ x ∈ authors s ∨ (x ∈ ids ∧ is_Some (author st !! x)).
Proof.
  intros Hnd. revert s. induction Hnd as [|a ids Ha Hnd IH]; intros s Hr Hnew Hs; simpl.
  - exists s. split; [done|]. split; [done|]. intros x. rewrite elem_of_nil. tauto.
  - apply Forall_cons in Hr as [Hra Hr].
    destruct (append_author_new_collecting st s a Hra) as (s1 & -> & Hs1 & Hin1);
      [apply Hnew; left|done|]. simpl.
    destruct (IH s1 Hr) as (s' & -> & Hs' & Hin'); [|done|].
    + intros x Hx [Hold|[Heq _]]%Hin1; [|by subst].
      by apply (Hnew x); [right|].
    + exists s'. split; [done|]. split; [done|].
      intros x. rewrite Hin', Hin1, elem_of_cons. naive_solver.
Qed.

(** What the commit of a new book wrote. *)
Lemma flush_new_book_inv st b s id st' :
  flush_new_book st b s = Ok (id, st') →
  id = next_id (book st) ∧ bound (Book.year b) ∧
  is_Some (Book.title b) ∧ isbn_unused (book st) id b ∧
  book st' = <[id:=b]> (book st) ∧ author st' = author st ∧
  ∀ i a, (i, a) ∈ book_author st' ↔
    (i, a) ∈ book_author st ∨
    (i = id ∧ (a ∈ added_items (mutations s) ∨ a ∈ authors s)).
Proof.
  unfold flush_new_book.
  destruct (bind (Book.year b)) as [u|] eqn:E0; simpl; [|done].
  apply bind_inv in E0.
  destruct (write_book st (next_id (book st)) b) as [st1|] eqn:E1; simpl; [|done].
  apply write_book_inv in E1 as (Ht & Hu & ->).
  destruct (insert_links _ _) as [st2|] eqn:E2; simpl; [|done].
  apply insert_links_inv in E2 as ->. simpl.
  destruct (insert_links _ _) as [st3|] eqn:E3; simpl; [|done].
  apply insert_links_inv in E3 as ->. simpl.
  intros [= <- <-]. simpl. split_and!; try done.
  intros i a. rewrite !elem_of_union, !elem_of_list_to_set, !list_elem_of_fmap.
  split.
  - intros [(x & [= -> ->] & [_ Hx]%list_elem_of_filter)|
            [(x & [= -> ->] & Hx%elem_of_elements)|Hl]]; auto.
  - intros [Hl|[-> [Ha|Ha]]]; [auto| |].
    + right. left. exists a. split; [done|]. by apply elem_of_elements.
    + destruct (decide (a ∈ added_items (mutations s))) as [Hin|Hout].
      * right. left. exists a. split; [done|]. by apply elem_of_elements.
      * left. exists a. split; [done|]. by apply list_elem_of_filter.
Qed.

(** The commit of a new book whose collection holds no author twice. *)
Lemma flush_new_book_ok st b s :
  db_ok st → bound (Book.year b) → is_Some (Book.title b) →
  isbn_unused (book st) (next_id (book st)) b → collecting st s →
  ∃ st', flush_new_book st b s = Ok (next_id (book st), st').
Proof.
  intros Hok Hy Ht Hu (Hstore & Hadd & Hauths & Hnd).
  assert (Hnone : ∀ a, (next_id (book st), a) ∉ book_author st).
  { intros a Hl. apply (db_ok_links _ _ _ Hok) in Hl as [[x Hx] _].
    by rewrite next_id_fresh in Hx. }
  unfold flush_new_book. rewrite bind_ok by done. simpl.
  rewrite write_book_ok by done. simpl.
  rewrite insert_links_ok; simpl.
  - rewrite insert_links_ok; simpl; [by eexists| |].
    + apply NoDup_fmap_2; [intros x y [=]; done|]. by apply NoDup_filter.
    + intros q (a & -> & [Hout _]%list_elem_of_filter)%list_elem_of_fmap.
      rewrite elem_of_union, elem_of_list_to_set, list_elem_of_fmap.
      intros [(x & [= <-] & Hx%elem_of_elements)|Hl]; [done|by apply (Hnone a)].
  - apply NoDup_fmap_2; [intros x y [=]; done|]. apply NoDup_elements.
  - intros q (a & -> & _)%list_elem_of_fmap. apply Hnone.
Qed.
End collecting.

(** ** Every view keeps the constraints *)

Section preservation.
Implicit Types (st : db).

Lemma db_ok_with_links st st' :
  db_ok st → book st' = book st → author st' = author st →
  set_Forall (λ q : Z * Z, is_Some (book st !! q.1) ∧ is_Some (author st !! q.2))
             (book_author st') →
  db_ok st'.
Proof. intros (Ht & Hn & Hu & _) Hb Ha Hl. unfold db_ok. by rewrite Hb, Ha. Qed.

(** The session the loop of POST ends with. *)
Lemma create_book_session st (author_ids : option (list Z)) s :
  db_ok st →
  (if truthy_list author_ids
   then append_authors_new (new_session st) (default [] author_ids)
   else Ok (new_session st)) = Ok s →
  session_ok st s.
Proof.
  intros Hok. destruct (truthy_list author_ids).
  - intros H. by apply (append_authors_new_session_ok st) in H as [? _];
      [|apply new_session_ok].
  - intros [= <-]. by apply new_session_ok.
Qed.

Lemma create_book_db_ok st data now : db_ok st → db_ok (create_book st data now).2.
Proof.
  intros Hok. unfold create_book.
  destruct data as [d|]; [|done].
  destruct (no_book_data (Some d)); [done|].
  destruct (negb _); [done|].
  match goal with |- context [match ?e with Some _ => (_, st) | None => _ end] =>
    destruct e end; [done|].
  match goal with |- context [if ?c then ?l else ?n] =>
    destruct (if c then l else n) as [s|] eqn:E end; simpl; [|done].
  apply create_book_session in E as (_ & _ & _ & Hadd & Hauths & _); [|done].
  match goal with |- context [flush_new_book st ?b s] =>
    destruct (flush_new_book st b s) as [[id st']|] eqn:F end; simpl; [|done].
  apply flush_new_book_inv in F as (-> & _ & Ht & Hu & Hbook & Hauthor & Hlinks).
  pose proof (write_book_ok st _ _ Ht Hu) as Hw.
  pose proof (write_book_db_ok _ _ _ _ Hok Hw) as Hok1.
  eapply db_ok_with_links; [exact Hok1|done|done|]. simpl.
  intros [i a] [Hl|[-> Ha]]%Hlinks; simpl.
  - destruct (db_ok_links _ _ _ Hok Hl) as [Hi Ha]. split; [|done].
    apply lookup_insert_is_Some'. by right.
  - split; [rewrite lookup_insert_eq; by eexists|].
    destruct Ha as [Ha|Ha]; [by apply Hadd|].
    exact (proj1 (Forall_forall _ _) Hauths _ Ha).
Qed.

Lemma update_book_db_ok st id data : db_ok st → db_ok (update_book st id data).2.
Proof.
  intros Hok. unfold update_book.
  destruct (Book_get st id) as [[b|]|]; [|done|done].
  destruct data as [d|]; [|done].
  destruct (no_book_data (Some d)); [done|].
  destruct (bind_changed _ _); simpl; [|done].
  match goal with |- context [write_book st id ?b] =>
    destruct (write_book st id b) as [st1|] eqn:E1 end; simpl; [|done].
  pose proof (write_book_db_ok _ _ _ _ Hok E1) as Hok1.
  destruct (BookData.author_ids d) as [[ids|]|]; simpl; [|done|done].
  assert (is_Some (book st1 !! id)) as Hid.
  { apply write_book_inv in E1 as (_ & _ & ->). simpl. rewrite lookup_insert_eq. by eexists. }
  destruct (append_authors id (replace_authors st1 id) ids) as [s|] eqn:E2; simpl; [|done].
  apply (append_authors_session_ok st1) in E2; [|done|by apply replace_authors_ok].
  destruct (flush_collection (store s) id (mutations s)) as [st'|] eqn:E3; simpl; [|done].
  destruct (flushed_session_ok _ _ _ _ Hid E2 E3) as (Hb & Ha & Hl).
  by eapply db_ok_with_links.
Qed.

Lemma delete_book_db_ok st id : db_ok st → db_ok (delete_book st id).2.
Proof.
  intros Hok. unfold delete_book.
  destruct (Book_get st id) as [[b|]|] eqn:Hb; [|done|done].
  pose proof Hok as (Ht & Hn & Hu & Hl). simpl. split_db_ok.
  - by apply map_Forall_delete.
  - done.
  - apply table_unique_spec, table_unique_delete. by apply table_unique_spec.
  - intros [i a] [Hp Hnot]%elem_of_difference. destruct (Hl _ Hp) as [Hi Ha].
    simpl in *. split; [|done].
    rewrite lookup_delete_ne; [done|]. intros <-. apply Hnot.
    apply elem_of_list_to_set, list_elem_of_fmap.
    destruct Ha as [row Hrow]. exists (a, row). split; [done|].
    by apply elem_of_Book_authors.
Qed.

Lemma create_author_db_ok st data now : db_ok st → db_ok (create_author st data now).2.
Proof.
  intros Hok. unfold create_author.
  destruct data as [d|]; [|done].
  destruct (no_author_data (Some d)); [done|].
  destruct (negb _); [done|].
  destruct (bind _); simpl; [|done].
  match goal with |- context [write_author st ?i ?a] =>
    destruct (write_author st i a) as [st'|] eqn:E end; [|done].
  simpl. by eapply write_author_db_ok.
Qed.

Lemma update_author_db_ok st id data : db_ok st → db_ok (update_author st id data).2.
Proof.
  intros Hok. unfold update_author.
  destruct (Author_get st id) as [[a|]|]; [|done|done].
  destruct data as [d|]; [|done].
  destruct (no_author_data (Some d)); [done|].
  destruct (bind_changed _ _); simpl; [|done].
  match goal with |- context [write_author st ?i ?a] =>
    destruct (write_author st i a) as [st'|] eqn:E end; [|done].
  simpl. by eapply write_author_db_ok.
Qed.

Lemma delete_author_db_ok st id : db_ok st → db_ok (delete_author st id).2.
Proof.
  intros Hok. unfold delete_author.
  destruct (Author_get st id) as [[a0|]|] eqn:Ha0; [|done|done].
  pose proof Hok as (Ht & Hn & Hu & Hl). simpl. split_db_ok.
  - done.
  - by apply map_Forall_delete.
  - done.
  - intros [i a] [Hp Hnot]%elem_of_difference. destruct (Hl _ Hp) as [Hi Ha].
    simpl in *. split; [done|].
    rewrite lookup_delete_ne; [done|]. intros <-. apply Hnot.
    apply elem_of_list_to_set, list_elem_of_fmap.
    destruct Hi as [row Hrow]. exists (i, row). split; [done|].
    by apply elem_of_Author_books.
Qed.

Lemma handle_db_ok st r : db_ok st → db_ok (handle st r).2.
Proof.
  destruct r; simpl;
    auto using create_book_db_ok, update_book_db_ok, delete_book_db_ok,
      create_author_db_ok, update_author_db_ok, delete_author_db_ok.
Qed.

Lemma init_db_ok now : db_ok (init_db empty_db now).
Proof. apply (bool_decide_unpack (db_ok (init_db empty_db now))). by vm_compute. Qed.

Lemma reachable_db_ok st : reachable st → db_ok st.
Proof. induction 1; [apply init_db_ok|by apply handle_db_ok]. Qed.
End preservation.

(** ** Deleting *)

Section delete.
Implicit Types (st : db).

Lemma delete_book_found st id :
  db_ok st → int64 id → is_Some (book st !! id) →
  ∃ st',
    delete_book st id = (Json 200 (Message "Book deleted successfully"), st') ∧
    book st' = delete id (book st) ∧
    author st' = author st ∧
    (∀ i a, (i, a) ∈ book_author st' ↔ (i, a) ∈ book_author st ∧ i ≠ id).
Proof.
  intros Hok Hr [b Hb]. unfold delete_book. rewrite Book_get_ok, Hb by done. simpl.
  eexists. split; [reflexivity|]. simpl. split; [done|]. split; [done|].
  intros i a. rewrite elem_of_difference, elem_of_list_to_set, list_elem_of_fmap.
  split.
  - intros [Hl Hnot]. split; [done|]. intros ->. apply Hnot.
    destruct (db_ok_links _ _ _ Hok Hl) as [_ [row Hrow]].
    exists (a, row). split; [done|]. by apply elem_of_Book_authors.
  - intros [Hl Hne]. split; [done|]. intros ([a' row] & [= -> _] & _). done.
Qed.

Lemma delete_author_found st id :
  db_ok st → int64 id → is_Some (author st !! id) →
  ∃ st',
    delete_author st id = (Json 200 (Message "Author deleted successfully"), st') ∧
    book st' = book st ∧
    author st' = delete id (author st) ∧
    (∀ i a, (i, a) ∈ book_author st' ↔ (i, a) ∈ book_author st ∧ a ≠ id).
Proof.
  intros Hok Hr [b Hb]. unfold delete_author. rewrite Author_get_ok, Hb by done. simpl.
  eexists. split; [reflexivity|]. simpl. split; [done|]. split; [done|].
  intros i a. rewrite elem_of_difference, elem_of_list_to_set, list_elem_of_fmap.
  split.
  - intros [Hl Hnot]. split; [done|]. intros ->. apply Hnot.
    destruct (db_ok_links _ _ _ Hok Hl) as [[row Hrow] _].
    exists (i, row). split; [done|]. by apply elem_of_Author_books.
  - intros [Hl Hne]. split; [done|]. intros ([i' row] & [= _ ->] & _). done.
Qed.

Lemma delete_book_absent st id :
  int64 id → book st !! id = None →
  delete_book st id = (Json 404 (Failure "Book not found"), st).
Proof. intros Hr H. unfold delete_book. by rewrite Book_get_ok, H. Qed.

Lemma delete_author_absent st id :
  int64 id → author st !! id = None →
  delete_author st id = (Json 404 (Failure "Author not found"), st).
Proof. intros Hr H. unfold delete_author. by rewrite Author_get_ok, H. Qed.
End delete.

(** ** Creating *)

Section create.
Implicit Types (st : db).

(** What a created book answers, and the store it leaves. *)
Lemma create_book_created st data now r st' :
  create_book st data now = (r, st') → status_code r = 201 →
  ∃ d b,
    data = Some d ∧
    b = Book.mk (get (BookData.title d)) (get (BookData.year d))
                (get (BookData.isbn d)) (Some now) ∧
    r = Json 201 (OneBook (Some "Book created successfully")
                          (Book_to_dict st' (next_id (book st), b))) ∧
    book st' = <[next_id (book st) := b]> (book st) ∧
    author st' = author st ∧
    (∀ i a, (i, a) ∈ book_author st → (i, a) ∈ book_author st') ∧
    (∀ i a, (i, a) ∈ book_author st' → (i, a) ∈ book_author st ∨ i = next_id (book st)).
Proof.
  unfold create_book.
  destruct data as [d|]; [|by intros [= <- <-]].
  destruct (no_book_data (Some d)); [by intros [= <- <-]|].
  destruct (negb _); [by intros [= <- <-]|].
  match goal with |- context [match ?e with Some _ => (_, st) | None => _ end] =>
    destruct e end; [by intros [= <- <-]|].
  match goal with |- context [if ?c then ?l else ?n] =>
    destruct (if c then l else n) as [s|] eqn:E end; simpl; [|by intros [= <- <-]].
  match goal with |- context [flush_new_book st ?b s] =>
    destruct (flush_new_book st b s) as [[id st1]|] eqn:F end; simpl;
    [|by intros [= <- <-]].
  intros [= <- <-] _.
  apply flush_new_book_inv in F as (-> & _ & _ & _ & Hb & Ha & Hl).
  eexists _, _. split; [done|]. split; [done|]. split; [done|].
  split; [done|]. split; [done|]. split.
  - intros i a H. apply Hl. by left.
  - intros i a [H|[-> _]]%Hl; auto.
Qed.

Lemma create_author_created st data now r st' :
  create_author st data now = (r, st') → status_code r = 201 →
  ∃ d a,
    data = Some d ∧
    a = Author.mk (get (AuthorData.name d)) (get (AuthorData.birth_year d))
                  (get (AuthorData.country d)) (Some now) ∧
    r = Json 201 (OneAuthor (Some "Author created successfully")
                            (Author_to_dict st' (next_id (author st), a))) ∧
    book st' = book st ∧
    author st' = <[next_id (author st) := a]> (author st) ∧
    book_author st' = book_author st.
Proof.
  unfold create_author.
  destruct data as [d|]; [|by intros [= <- <-]].
  destruct (no_author_data (Some d)); [by intros [= <- <-]|].
  destruct (negb _); [by intros [= <- <-]|].
  destruct (bind _); simpl; [|by intros [= <- <-]].
  match goal with |- context [write_author st ?i ?a] =>
    destruct (write_author st i a) as [st1|] eqn:E end; [|by intros [= <- <-]].
  intros [= <- <-] _. apply write_author_inv in E as (_ & ->).
  eexists _, _. done.
Qed.
End create.

(** ** De-duplication *)

Section unique.
Context {V : Type}.
Implicit Types (l : list (Z * V)).

Lemma NoDup_unique l : NoDup (unique l).*1.
Proof. apply NoDup_fst_map_to_list. Qed.

(** On a list that gives every id one row, [unique] keeps the elements. *)
Lemma elem_of_unique l (tbl : gmap Z V) o :
  (∀ o', o' ∈ l → tbl !! o'.1 = Some o'.2) →
  o ∈ unique l ↔ o ∈ l.
Proof.
  intros Hl. destruct o as [k v]. unfold unique. rewrite elem_of_map_to_list. split.
  - apply elem_of_list_to_map_2.
  - intros Hin. apply elem_of_list_to_map_1'; [|done].
    intros v' Hv'. apply Hl in Hin, Hv'. simpl in *. congruence.
Qed.
End unique.

(** ** The search result sets *)

Section search.
Implicit Types (st : db) (query : string).

Lemma elem_of_B1 st query i :
  i ∈ B1 st query ↔
  ∃ b, book st !! i = Some b ∧ column_ilike (Book.title b) (Str.wrap query) = true.
Proof.
  unfold B1. rewrite elem_of_dom. unfold is_Some.
  by setoid_rewrite map_lookup_filter_Some.
Qed.

Lemma elem_of_A1 st query j :
  j ∈ A1 st query ↔
  ∃ a, author st !! j = Some a ∧ column_ilike (Author.name a) (Str.wrap query) = true.
Proof.
  unfold A1. rewrite elem_of_dom. unfold is_Some.
  by setoid_rewrite map_lookup_filter_Some.
Qed.

Lemma elem_of_books_of st j i :
  i ∈ books_of st j ↔ is_Some (book st !! i) ∧ (i, j) ∈ book_author st.
Proof. unfold books_of. rewrite elem_of_filter, elem_of_dom. tauto. Qed.

Lemma elem_of_authors_of st i j :
  j ∈ authors_of st i ↔ is_Some (author st !! j) ∧ (i, j) ∈ book_author st.
Proof. unfold authors_of. rewrite elem_of_filter, elem_of_dom. tauto. Qed.

Lemma elem_of_book_result_set st query i :
  i ∈ book_result_set st query ↔
  i ∈ B1 st query ∨ ∃ j, j ∈ A1 st query ∧ i ∈ books_of st j.
Proof.
  unfold book_result_set. rewrite elem_of_union, elem_of_union_list.
  apply or_iff_compat_l. split.
  - intros (X & (j & -> & Hj%elem_of_elements)%list_elem_of_fmap & Hi). eauto.
  - intros (j & Hj & Hi). exists (books_of st j). split; [|done].
    apply list_elem_of_fmap. exists j. split; [done|]. by apply elem_of_elements.
Qed.

Lemma elem_of_author_result_set st query j :
  j ∈ author_result_set st query ↔
  j ∈ A1 st query ∨ ∃ i, i ∈ B1 st query ∧ j ∈ authors_of st i.
Proof.
  unfold author_result_set. rewrite elem_of_union, elem_of_union_list.
  apply or_iff_compat_l. split.
  - intros (X & (i & -> & Hi%elem_of_elements)%list_elem_of_fmap & Hj). eauto.
  - intros (i & Hi & Hj). exists (authors_of st i). split; [|done].
    apply list_elem_of_fmap. exists i. split; [done|]. by apply elem_of_elements.
Qed.

Lemma elem_of_found_books st query i b :
  (i, b) ∈ found_books st query ↔
  book st !! i = Some b ∧ i ∈ book_result_set st query.
Proof.
  unfold found_books, Book_all, Author_all.
  rewrite elem_of_app, list_elem_of_filter, elem_of_map_to_list, list_elem_of_bind.
  rewrite elem_of_book_result_set, elem_of_B1. simpl. split.
  - intros [[Hm%Is_true_true Hb]|([j a] & Hi%elem_of_Author_books & [Hm%Is_true_true Ha%elem_of_map_to_list]%list_elem_of_filter)].
    + split; [done|]. left. eauto.
    + simpl in *. destruct Hi as [Hb Hl]. split; [done|]. right. exists j. split.
      * apply elem_of_A1. eauto.
      * apply elem_of_books_of. eauto.
  - intros [Hb [(b' & Hb' & Hm)|(j & (a & Ha & Hm)%elem_of_A1 & [_ Hl]%elem_of_books_of)]].
    + left. simplify_eq. split; [by apply Is_true_true|done].
    + right. exists (j, a). split; [by apply elem_of_Author_books|].
      apply list_elem_of_filter. split; [by apply Is_true_true|].
      by apply elem_of_map_to_list.
Qed.

Lemma elem_of_found_authors st query j a :
  (j, a) ∈ found_authors st query ↔
  author st !! j = Some a ∧ j ∈ author_result_set st query.
Proof.
  unfold found_authors, Book_all, Author_all.
  rewrite elem_of_app, list_elem_of_filter, elem_of_map_to_list, list_elem_of_bind.
  rewrite elem_of_author_result_set, elem_of_A1. simpl. split.
  - intros [[Hm%Is_true_true Ha]|([i b] & Hj%elem_of_Book_authors & [Hm%Is_true_true Hb%elem_of_map_to_list]%list_elem_of_filter)].
    + split; [done|]. left. eauto.
    + simpl in *. destruct Hj as [Ha Hl]. split; [done|]. right. exists i. split.
      * apply elem_of_B1. eauto.
      * apply elem_of_authors_of. eauto.
  - intros [Ha [(a' & Ha' & Hm)|(i & (b & Hb & Hm)%elem_of_B1 & [_ Hl]%elem_of_authors_of)]].
    + left. simplify_eq. split; [by apply Is_true_true|done].
    + right. exists (i, b). split; [by apply elem_of_Book_authors|].
      apply list_elem_of_filter. split; [by apply Is_true_true|].
      by apply elem_of_map_to_list.
Qed.

(** A duplicate-free list of stored rows whose ids are exactly [X]. *)
Lemma unique_enumerates {V} (tbl : gmap Z V) (l : list (Z * V)) (X : gset Z) :
  (∀ i v, (i, v) ∈ l ↔ tbl !! i = Some v ∧ i ∈ X) →
  X ⊆ dom tbl →
  (∀ o, o ∈ unique l → tbl !! o.1 = Some o.2) ∧
  NoDup (unique l).*1 ∧
  list_to_set (unique l).*1 = X ∧
  length (unique l) = size X.
Proof.
  intros Hl Hdom.
  assert (Hstored : ∀ o', o' ∈ l → tbl !! o'.1 = Some o'.2).
  { intros [i v] Hin. by apply Hl in Hin as [? _]. }
  assert (Hset : list_to_set (unique l).*1 = X).
  { apply set_eq. intros i. rewrite elem_of_list_to_set, list_elem_of_fmap. split.
    - intros ([i' v] & -> & Hin). rewrite (elem_of_unique _ tbl) in Hin by done.
      by apply Hl in Hin as [_ ?].
    - intros Hi. destruct (proj1 (elem_of_dom tbl i) (Hdom _ Hi)) as [v Hv].
      exists (i, v). split; [done|]. rewrite (elem_of_unique _ tbl) by done.
      by apply Hl. }
  split; [|split; [|split]].
  - intros o Hin. rewrite (elem_of_unique _ tbl) in Hin by done. by apply Hstored.
  - apply NoDup_unique.
  - done.
  - rewrite <- Hset, size_list_to_set, length_fmap; [done|apply NoDup_unique].
Qed.

Lemma book_result_set_stored st query : book_result_set st query ⊆ dom (book st).
Proof.
  intros i [(b & Hb & _)%elem_of_B1|(j & _ & [Hi _]%elem_of_books_of)]%elem_of_book_result_set;
    apply elem_of_dom; eauto.
Qed.

Lemma author_result_set_stored st query : author_result_set st query ⊆ dom (author st).
Proof.
  intros j [(a & Ha & _)%elem_of_A1|(i & _ & [Hj _]%elem_of_authors_of)]%elem_of_author_result_set;
    apply elem_of_dom; eauto.
Qed.
End search.

(** ** Updates and creations the store accepts *)

Section accepted.
Implicit Types (st : db).

Lemma has_book_data d :
  has (BookData.title d) || has (BookData.year d) || has (BookData.isbn d)
    || has (BookData.author_ids d) = true →
  no_book_data (Some d) = false.
Proof. intros H. unfold no_book_data. by rewrite H. Qed.

Lemma updated_book_writable st id b d :
  db_ok st → book st !! id = Some b →
  BookData.title d ≠ Some None →
  (∀ s j bj, BookData.isbn d = Some (Some s) →
     book st !! j = Some bj → Book.isbn bj = Some s → j = id) →
  is_Some (Book.title (updated_book b d)) ∧
  isbn_unused (book st) id (updated_book b d).
Proof.
  intros Hok Hb Ht Hi. pose proof Hok as (Htitles & _ & Hu & _). split.
  - simpl. destruct (BookData.title d) as [[t|]|]; [by eexists|done|].
    exact (Htitles _ _ Hb).
  - apply isbn_unused_spec. simpl. intros s j bj Hs Hj Hsj.
    destruct (BookData.isbn d) as [[s'|]|] eqn:E; [|done|].
    + simplify_eq. by eapply Hi.
    + apply table_unique_spec in Hu. eapply Hu; eauto.
Qed.

(** The integer an update binds for a column of the payload fits when the
    payload's does. *)
Lemma bind_changed_field (field : option (option Z)) (old : option Z) :
  bound (get field) →
  bind_changed old (match field with Some v => v | None => old end) = Ok tt.
Proof.
  destruct field as [v|]; simpl.
  - apply bind_changed_ok.
  - intros _. apply bind_changed_same.
Qed.

Lemma update_book_accepted st id b d :
  db_ok st → int64 id → book st !! id = Some b → no_book_data (Some d) = false →
  BookData.title d ≠ Some None →
  (∀ s j bj, BookData.isbn d = Some (Some s) →
     book st !! j = Some bj → Book.isbn bj = Some s → j = id) →
  BookData.author_ids d ≠ Some None →
  (∀ ids, BookData.author_ids d = Some (Some ids) → NoDup ids) →
  book_data_fits d →
  ∃ st',
    update_book st id (Some d) =
      (Json 200 (OneBook (Some "Book updated successfully")
                         (Book_to_dict st' (id, updated_book b d))), st') ∧
    book st' = <[id := updated_book b d]> (book st) ∧
    author st' = author st ∧
    ∀ i a, (i, a) ∈ book_author st' ↔
      match BookData.author_ids d with
      | Some (Some ids) =>
          (i = id ∧ a ∈ ids ∧ is_Some (author st !! a)) ∨ (i ≠ id ∧ (i, a) ∈ book_author st)
      | _ => (i, a) ∈ book_author st
      end.
Proof.
  intros Hok Hr Hb Hdata Ht Hi Hnull Hnd [Hy Hids].
  destruct (updated_book_writable st id b d Hok Hb Ht Hi) as [Hw1 Hw2].
  unfold update_book. rewrite Book_get_ok, Hb, Hdata by done.
  rewrite bind_changed_field by done. simpl.
  fold (updated_book b d).
  pose proof (write_book_ok st id _ Hw1 Hw2) as Hw. rewrite Hw. simpl.
  pose proof (write_book_db_ok _ _ _ _ Hok Hw) as Hok1.
  destruct (BookData.author_ids d) as [[ids|]|] eqn:E; [|done|]; simpl.
  - destruct (replace_collection _ id ids Hok1) as (s & links & Hloop & Hflush & Hlinks);
      [by apply Hnd|done|].
    rewrite Hloop. simpl. rewrite Hflush. simpl.
    eexists. split; [reflexivity|]. simpl. done.
  - eexists. split; [reflexivity|]. simpl. done.
Qed.

Lemma update_author_accepted st id a d :
  db_ok st → int64 id → author st !! id = Some a → no_author_data (Some d) = false →
  AuthorData.name d ≠ Some None → author_data_fits d →
  update_author st id (Some d) =
    (Json 200 (OneAuthor (Some "Author updated successfully")
                 (Author_to_dict (Db (book st) (<[id := updated_author a d]> (author st))
                                     (book_author st)) (id, updated_author a d))),
     Db (book st) (<[id := updated_author a d]> (author st)) (book_author st)).
Proof.
  intros (_ & Hnames & _) Hr Ha Hdata Hn Hy.
  unfold update_author. rewrite Author_get_ok, Ha, Hdata by done.
  rewrite bind_changed_field by done. simpl.
  fold (updated_author a d).
  unfold write_author.
  assert (is_Some (Author.name (updated_author a d))) as [n Hname].
  { simpl. destruct (AuthorData.name d) as [[n|]|]; [by eexists|done|].
    exact (Hnames _ _ Ha). }
  by rewrite Hname.
Qed.

Lemma no_book_with_isbn st s :
  (∀ j bj, book st !! j = Some bj → Book.isbn bj ≠ Some s) →
  Book_filter_by_isbn st s = [].
Proof.
  intros Hno. destruct (Book_filter_by_isbn st s) as [|[j bj] l] eqn:E; [done|].
  assert ((j, bj) ∈ Book_filter_by_isbn st s) as Hin by (rewrite E; left).
  apply list_elem_of_filter in Hin as [Hs Hj%elem_of_map_to_list].
  by destruct (Hno _ _ Hj).
Qed.

(** The session the loop of POST ends with when no author id repeats. *)
Lemma create_book_collecting st (author_ids : option (list Z)) :
  NoDup (default [] author_ids) → Forall int64 (default [] author_ids) →
  ∃ s,
    (if truthy_list author_ids
     then append_authors_new (new_session st) (default [] author_ids)
     else Ok (new_session st)) = Ok s ∧
    collecting st s ∧
    ∀ a, a ∈ authors s ↔ a ∈ default [] author_ids ∧ is_Some (author st !! a).
Proof.
  intros Hnd Hr. destruct (truthy_list author_ids) eqn:E.
  - destruct (append_authors_new_collecting st _ (new_session st) Hnd Hr)
      as (s & -> & Hs & Hin); [by intros a _ ?%elem_of_nil|apply new_session_collecting|].
    exists s. split; [done|]. split; [done|].
    intros a. rewrite Hin. simpl. rewrite elem_of_nil. tauto.
  - exists (new_session st). split; [done|]. split; [apply new_session_collecting|].
    intros a. simpl. destruct author_ids as [[|]|]; simpl in *; try done;
      rewrite elem_of_nil; tauto.
Qed.

Lemma create_book_accepted st d now :
  db_ok st →
  truthy_str (get (BookData.title d)) = true →
  (∀ s j bj, get (BookData.isbn d) = Some s →
     book st !! j = Some bj → Book.isbn bj ≠ Some s) →
  NoDup (default [] (get (BookData.author_ids d))) →
  book_data_fits d →
  ∃ st' b,
    b = Book.mk (get (BookData.title d)) (get (BookData.year d))
                (get (BookData.isbn d)) (Some now) ∧
    create_book st (Some d) now =
      (Json 201 (OneBook (Some "Book created successfully")
                         (Book_to_dict st' (next_id (book st), b))), st') ∧
    book st' = <[next_id (book st) := b]> (book st) ∧
    author st' = author st ∧
    ∀ i a, (i, a) ∈ book_author st' ↔
      (i, a) ∈ book_author st ∨
      (i = next_id (book st) ∧ a ∈ default [] (get (BookData.author_ids d)) ∧
       is_Some (author st !! a)).
Proof.
  intros Hok Ht Hi Hnd [Hy Hr]. unfold create_book.
  rewrite has_book_data by (destruct (BookData.title d); done).
  rewrite Ht. simpl.
  assert (match get (BookData.isbn d) with
          | Some isbn => if Str.truthy isbn then head (Book_filter_by_isbn st isbn) else None
          | None => None
          end = None) as ->.
  { destruct (get (BookData.isbn d)) as [s|] eqn:E; [|done].
    destruct (Str.truthy s); [|done].
    rewrite no_book_with_isbn; [done|]. intros j bj. by apply Hi. }
  destruct (create_book_collecting st (get (BookData.author_ids d)) Hnd Hr)
    as (s & -> & Hs & Hin). simpl.
  set (b := Book.mk _ _ _ _).
  destruct (flush_new_book_ok st b s Hok) as (st' & Hf); [done| | |done|].
  - simpl. destruct (get (BookData.title d)); [by eexists|done].
  - apply isbn_unused_spec. simpl. intros s' j bj Hs' Hj Hsj.
    by destruct (Hi s' j bj Hs' Hj).
  - rewrite Hf. simpl.
    apply flush_new_book_inv in Hf as (_ & _ & _ & _ & Hbook & Hauthor & Hlinks).
    exists st', b. split; [done|]. split; [done|]. split; [done|]. split; [done|].
    intros i a. rewrite Hlinks. destruct Hs as (_ & Hadd & _).
    split.
    + intros [?|[-> [Ha%Hadd|Ha]]]; [by left|right; split; [done|by apply Hin]..].
    + intros [?|[-> Ha%Hin]]; [by left|right]. split; [done|by right].
Qed.
End accepted.

(** ** Serialized relationships *)

Section serialized.
Implicit Types (st : db).

Lemma Book_to_dict_author_ids st o :
  AuthorSimple.id <$> BookDict.authors (Book_to_dict st o) = (Book_authors st o.1).*1.
Proof.
  unfold Book_to_dict. simpl. rewrite <- list_fmap_compose.
  by apply list_fmap_ext.
Qed.

Lemma Author_to_dict_book_ids st o :
  BookSimple.id <$> AuthorDict.books (Author_to_dict st o) = (Author_books st o.1).*1.
Proof.
  unfold Author_to_dict. simpl. rewrite <- list_fmap_compose.
  by apply list_fmap_ext.
Qed.
End serialized.

(** ** LIKE patterns without wildcards *)

Section like.
Implicit Types (p t : string) (c : ascii).

Lemma prefix_spec p t : Str.prefix p t = true ↔ ∃ post, t = p +:+ post.
Proof.
  revert t. induction p as [|a p IH]; intros t; simpl.
  - split; [eauto|done].
  - destruct t as [|b t]; [split; [done|by intros [? [=]]]|].
    rewrite andb_true_iff, Ascii.eqb_eq, IH. split.
    + intros [-> [post ->]]. eauto.
    + intros [post [= -> ->]]. eauto.
Qed.

Lemma contains_spec p t :
  Str.contains p t = true ↔ ∃ pre post, t = pre +:+ p +:+ post.
Proof.
  induction t as [|b t IH]; simpl; rewrite orb_true_iff, prefix_spec.
  - split.
    + intros [[post ->]|[=]]. by exists EmptyString, post.
    + intros (pre & post & H). left. destruct pre; [by exists post|done].
  - rewrite IH. split.
    + intros [[post ->]|(pre & post & ->)].
      * by exists EmptyString, post.
      * by exists (String b pre), post.
    + intros ([|a pre] & post & H); simpl in H.
      * left. eauto.
      * right. injection H as -> ->. eauto.
Qed.

Lemma like_percent_unfold p t :
  Str.like (String Str.percent p) t =
  Str.like p t || match t with
                  | EmptyString => false
                  | String _ t' => Str.like (String Str.percent p) t'
                  end.
Proof. destruct t; reflexivity. Qed.

Lemma like_percent t : Str.like (String Str.percent EmptyString) t = true.
Proof.
  induction t as [|b t IH]; [done|].
  rewrite like_percent_unfold, IH. apply orb_true_r.
Qed.

Lemma like_plain_cons c p t :
  Ascii.eqb c Str.percent = false → Ascii.eqb c Str.underscore = false →
  Str.like (String c p) t =
  match t with
  | EmptyString => false
  | String d t' => Ascii.eqb c d && Str.like p t'
  end.
Proof. intros H1 H2. simpl. by rewrite H1, H2. Qed.

Lemma like_plain_then_percent p t :
  Str.plain p = true →
  Str.like (p +:+ String Str.percent EmptyString) t = Str.prefix p t.
Proof.
  revert t. induction p as [|c p IH]; intros t Hp.
  - apply like_percent.
  - simpl in Hp. apply andb_true_iff in Hp as [[H1%negb_true_iff H2%negb_true_iff]%andb_true_iff Hp].
    change (String c p +:+ String Str.percent EmptyString)
      with (String c (p +:+ String Str.percent EmptyString)).
    rewrite like_plain_cons by done.
    destruct t as [|d t]; [done|]. simpl. by rewrite IH.
Qed.

(** With no wildcard in [p], [LIKE '%p%'] is the substring test. *)
Lemma like_wrap_plain p t :
  Str.plain p = true → Str.like (Str.wrap p) t = Str.contains p t.
Proof.
  intros Hp. unfold Str.wrap.
  induction t as [|b t IH].
  - rewrite like_percent_unfold, like_plain_then_percent by done. by destruct p.
  - rewrite like_percent_unfold, like_plain_then_percent, IH by done. reflexivity.
Qed.

Lemma lower_char_wildcard c :
  Ascii.eqb (Str.lower_char c) Str.percent = Ascii.eqb c Str.percent ∧
  Ascii.eqb (Str.lower_char c) Str.underscore = Ascii.eqb c Str.underscore.
Proof. destruct c as [[] [] [] [] [] [] [] []]; by vm_compute. Qed.

Lemma plain_lower p : Str.plain (Str.lower p) = Str.plain p.
Proof.
  induction p as [|c p IH]; [done|]. simpl.
  destruct (lower_char_wildcard c) as [-> ->]. by rewrite IH.
Qed.

Lemma lower_app p t : Str.lower (p +:+ t) = Str.lower p +:+ Str.lower t.
Proof. induction p as [|c p IH]; [done|]. simpl. by rewrite IH. Qed.

Lemma lower_wrap p : Str.lower (Str.wrap p) = Str.wrap (Str.lower p).
Proof. unfold Str.wrap. simpl. by rewrite lower_app. Qed.

Lemma ilike_wrap_plain q t :
  Str.plain q = true → Str.ilike t (Str.wrap q) = icontains q t.
Proof.
  intros Hq. unfold Str.ilike, icontains.
  rewrite lower_wrap, like_wrap_plain; [done|by rewrite plain_lower].
Qed.
End like.

(** ** Listing the tables *)

Section listing.
Implicit Types (st : db).

Lemma Book_all_spec st :
  length (Book_all st) = size (book st) ∧ NoDup (Book_all st).*1 ∧
  ∀ i b, (i, b) ∈ Book_all st ↔ book st !! i = Some b.
Proof.
  unfold Book_all. split; [apply length_map_to_list|].
  split; [apply NoDup_fst_map_to_list|]. intros i b. apply elem_of_map_to_list.
Qed.

Lemma Author_all_spec st :
  length (Author_all st) = size (author st) ∧ NoDup (Author_all st).*1 ∧
  ∀ j a, (j, a) ∈ Author_all st ↔ author st !! j = Some a.
Proof.
  unfold Author_all. split; [apply length_map_to_list|].
  split; [apply NoDup_fst_map_to_list|]. intros j a. apply elem_of_map_to_list.
Qed.

Lemma Book_to_dict_ids st (l : list (Z * Book.t)) :
  BookDict.id <$> (Book_to_dict st <$> l) = l.*1.
Proof. rewrite <- list_fmap_compose. by apply list_fmap_ext. Qed.

Lemma Author_to_dict_ids st (l : list (Z * Author.t)) :
  AuthorDict.id <$> (Author_to_dict st <$> l) = l.*1.
Proof. rewrite <- list_fmap_compose. by apply list_fmap_ext. Qed.

Lemma Book_authors_NoDup st i : NoDup (Book_authors st i).*1.
Proof.
  unfold Book_authors.
  eapply sublist_NoDup; [apply (NoDup_fst_map_to_list (author st))|].
  apply fmap_sublist, sublist_filter.
Qed.

Lemma Author_books_NoDup st j : NoDup (Author_books st j).*1.
Proof.
  unfold Author_books.
  eapply sublist_NoDup; [apply (NoDup_fst_map_to_list (book st))|].
  apply fmap_sublist, sublist_filter.
Qed.
End listing.


(** ** What an update did *)

Section inversion.
Implicit Types (st : db).

(** What an update of a book that was answered 200 did. *)
Lemma update_book_updated st id data r st' :
  update_book st id data = (r, st') → status_code r = 200 →
  ∃ b d st1,
    int64 id ∧ book st !! id = Some b ∧ data = Some d ∧ no_book_data data = false ∧
    write_book st id (updated_book b d) = Ok st1 ∧
    match BookData.author_ids d with
    | None => st' = st1
    | Some None => False
    | Some (Some ids) =>
        ∃ s, append_authors id (replace_authors st1 id) ids = Ok s ∧
             flush_collection (store s) id (mutations s) = Ok st'
    end ∧
    book st' = <[id := updated_book b d]> (book st) ∧ author st' = author st ∧
    r = Json 200 (OneBook (Some "Book updated successfully")
                          (Book_to_dict st' (id, updated_book b d))).
Proof.
  unfold update_book.
  destruct (Book_get st id) as [[b|]|] eqn:Hb; [|by intros [= <- <-]..].
  apply Book_get_inv in Hb as [Hr Hb]. symmetry in Hb.
  destruct data as [d|]; [|by intros [= <- <-]].
  destruct (no_book_data (Some d)) eqn:Hd; [by intros [= <- <-]|].
  fold (updated_book b d).
  destruct (bind_changed _ _); simpl; [|by intros [= <- <-]].
  destruct (write_book st id (updated_book b d)) as [st1|] eqn:W; simpl;
    [|by intros [= <- <-]].
  pose proof (write_book_inv _ _ _ _ W) as (_ & _ & Hst1).
  destruct (BookData.author_ids d) as [[ids|]|] eqn:E; simpl; [|by intros [= <- <-]|].
  - destruct (append_authors id (replace_authors st1 id) ids) as [s|] eqn:L; simpl;
      [|by intros [= <- <-]].
    destruct (flush_collection (store s) id (mutations s)) as [st2|] eqn:F; simpl;
      [|by intros [= <- <-]].
    intros [= <- <-] _. exists b, d, st1. rewrite E.
    pose proof (append_authors_tables _ _ _ _ L) as [Hb1 Ha1]. simpl in Hb1, Ha1.
    assert (book st2 = book st1 ∧ author st2 = author st1) as [Hb2 Ha2].
    { rewrite (flush_collection_inv _ _ _ _ F). simpl. done. }
    split_and!; try done.
    + by exists s.
    + rewrite Hb2. by subst st1.
    + rewrite Ha2. by subst st1.
  - intros [= <- <-] _. exists b, d, st1. rewrite E. split_and!; try done; by subst st1.
Qed.

Lemma update_author_updated st id data r st' :
  update_author st id data = (r, st') → status_code r = 200 →
  ∃ a d,
    int64 id ∧ author st !! id = Some a ∧ data = Some d ∧ no_author_data data = false ∧
    is_Some (Author.name (updated_author a d)) ∧
    st' = Db (book st) (<[id := updated_author a d]> (author st)) (book_author st) ∧
    r = Json 200 (OneAuthor (Some "Author updated successfully")
                            (Author_to_dict st' (id, updated_author a d))).
Proof.
  unfold update_author.
  destruct (Author_get st id) as [[a|]|] eqn:Ha; [|by intros [= <- <-]..].
  apply Author_get_inv in Ha as [Hr Ha]. symmetry in Ha.
  destruct data as [d|]; [|by intros [= <- <-]].
  destruct (no_author_data (Some d)) eqn:Hd; [by intros [= <- <-]|].
  fold (updated_author a d).
  destruct (bind_changed _ _); simpl; [|by intros [= <- <-]].
  destruct (write_author st id (updated_author a d)) as [st1|] eqn:W;
    [|by intros [= <- <-]].
  intros [= <- <-] _. apply write_author_inv in W as (Hn & ->).
  exists a, d. done.
Qed.
End inversion.

(** ** Writing the same again *)

Section idempotence.
Implicit Types (st : db).

Lemma updated_book_twice b d : updated_book (updated_book b d) d = updated_book b d.
Proof.
  unfold updated_book. simpl.
  by destruct (BookData.title d), (BookData.year d), (BookData.isbn d).
Qed.

Lemma updated_author_twice a d :
  updated_author (updated_author a d) d = updated_author a d.
Proof.
  unfold updated_author. simpl.
  by destruct (AuthorData.name d), (AuthorData.birth_year d), (AuthorData.country d).
Qed.

Lemma isbn_unused_insert (tbl : gmap Z Book.t) id b x :
  isbn_unused tbl id b → isbn_unused (<[id:=x]> tbl) id b.
Proof.
  rewrite !isbn_unused_spec. intros H s j bj Hs Hj Hsj.
  destruct (decide (j = id)) as [|Hne]; [done|].
  rewrite lookup_insert_ne in Hj by done. eauto.
Qed.

Lemma filter_none {A} (P : A → Prop) `{!∀ x, Decision (P x)} (l : list A) :
  (∀ x, x ∈ l → ¬ P x) → filter P l = [].
Proof.
  induction l as [|x l IH]; intros Hl; [done|].
  rewrite filter_cons, decide_False by (apply Hl; left).
  apply IH. intros y Hy. apply Hl. by right.
Qed.

Lemma db_eta st : Db (book st) (author st) (book_author st) = st.
Proof. by destruct st. Qed.

(** Writing a stored row again leaves the store as it is. *)
Lemma write_book_again st id b :
  book st !! id = Some b → is_Some (Book.title b) → isbn_unused (book st) id b →
  write_book st id b = Ok st.
Proof.
  intros Hb Ht Hu. rewrite write_book_ok by done.
  by rewrite insert_id, db_eta.
Qed.

(** A PUT of a book that was answered 200 is answered the same again when
    its [author_ids], if any, repeat no id. *)
Lemma update_book_again st id d r st' :
  db_ok st → update_book st id (Some d) = (r, st') → status_code r = 200 →
  (∀ ids, BookData.author_ids d = Some (Some ids) → NoDup ids ∧ Forall int64 ids) →
  update_book st' id (Some d) = (r, st').
Proof.
  intros Hok Hu H200 Hids.
  destruct (update_book_updated _ _ _ _ _ Hu H200)
    as (b & d' & st1 & Hr & Hb & [= <-] & Hdata & Hw & Hloop & Hbook & Hauthor & ->).
  set (b' := updated_book b d) in *.
  pose proof (write_book_inv _ _ _ _ Hw) as (Ht & Hun & Hst1).
  pose proof (write_book_db_ok _ _ _ _ Hok Hw) as Hok1.
  assert (book st' !! id = Some b') as Hb' by (rewrite Hbook; apply lookup_insert_eq).
  assert (write_book st' id b' = Ok st') as Hw'.
  { apply write_book_again; [done|done|]. rewrite Hbook. by apply isbn_unused_insert. }
  unfold update_book. rewrite Book_get_ok, Hb', Hdata by done.
  fold (updated_book b' d). unfold b'. rewrite updated_book_twice. fold b'.
  assert (match BookData.year d with Some v => v | None => Book.year b' end = Book.year b')
    as -> by (unfold b'; simpl; by destruct (BookData.year d)).
  rewrite bind_changed_same. simpl. rewrite Hw'. simpl.
  destruct (BookData.author_ids d) as [[ids|]|] eqn:E; [|done|by subst].
  destruct (Hids ids eq_refl) as [Hnd Hri].
  destruct Hloop as (s & Hl & Hf).
  destruct (replace_collection st1 id ids Hok1 Hnd Hri) as (s1 & links & Hl1 & Hf1 & Hin).
  rewrite Hl in Hl1. injection Hl1 as <-. rewrite Hf in Hf1. injection Hf1 as Hst'.
  assert (db_ok st') as Hok'.
  { replace st' with (update_book st id (Some d)).2 by (by rewrite Hu).
    by apply update_book_db_ok. }
  destruct (replace_collection st' id ids Hok' Hnd Hri) as (s2 & links2 & Hl2 & Hf2 & Hin2).
  rewrite Hl2. simpl. rewrite Hf2. simpl.
  assert (links2 = book_author st') as ->.
  { apply set_eq. intros [i a]. rewrite Hin2. rewrite Hst'. simpl. rewrite Hin.
    rewrite Hst1. simpl. clear. naive_solver. }
  by rewrite db_eta.
Qed.

Lemma update_author_again st id d r st' :
  update_author st id (Some d) = (r, st') → status_code r = 200 →
  update_author st' id (Some d) = (r, st').
Proof.
  intros Hu H200.
  destruct (update_author_updated _ _ _ _ _ Hu H200)
    as (a & d' & Hr & Ha & [= <-] & Hdata & Hn & -> & ->).
  set (a' := updated_author a d) in *.
  unfold update_author. rewrite Author_get_ok by done. cbn [author].
  rewrite lookup_insert_eq, Hdata.
  fold (updated_author a' d). unfold a'. rewrite updated_author_twice. fold a'.
  assert (match AuthorData.birth_year d with Some v => v | None => Author.birth_year a' end
          = Author.birth_year a')
    as -> by (unfold a'; simpl; by destruct (AuthorData.birth_year d)).
  rewrite bind_changed_same. simpl.
  unfold write_author. destruct Hn as [n Hn]. rewrite Hn. simpl.
  by rewrite insert_insert_eq.
Qed.
End idempotence.

(** ** Stripping and what stays inside *)

Section strip.
Implicit Types (s : string) (c : ascii).

Lemma append_cons c s t : String c s +:+ t = String c (s +:+ t).
Proof. reflexivity. Qed.

Lemma append_nil t : EmptyString +:+ t = t.
Proof. reflexivity. Qed.

Lemma append_assoc s t u : (s +:+ t) +:+ u = s +:+ (t +:+ u).
Proof. induction s as [|c s IH]; [done|]. by rewrite !append_cons, IH. Qed.

Lemma lstrip_suffix s : ∃ pre, s = pre +:+ Str.lstrip s ∧ all_space pre = true.
Proof.
  induction s as [|c r (pre & IH & Hpre)]; simpl.
  - by exists EmptyString.
  - destruct (Str.is_space c) eqn:E.
    + exists (String c pre). simpl. rewrite E, append_cons. split; [by rewrite <- IH|done].
    + by exists EmptyString.
Qed.

Lemma rstrip_prefix s : ∃ post, s = Str.rstrip s +:+ post ∧ all_space post = true.
Proof.
  induction s as [|c r (post & IH & Hpost)]; simpl.
  - by exists EmptyString.
  - destruct (Str.rstrip r) as [|d r'] eqn:E.
    + simpl in IH. destruct (Str.is_space c) eqn:Ec.
      * exists (String c r). simpl. rewrite Ec. split; [done|].
        by rewrite IH.
      * exists r. simpl. split; [done|]. by rewrite IH.
    + exists post. simpl. split; [|done]. by rewrite IH at 1.
Qed.

(** A stripped string sits inside the string it was stripped from, between
    two runs of whitespace. *)
Lemma strip_inside s :
  ∃ pre post, s = pre +:+ Str.strip s +:+ post ∧
              all_space pre = true ∧ all_space post = true.
Proof.
  destruct (lstrip_suffix s) as (pre & Hs & Hpre).
  destruct (rstrip_prefix (Str.lstrip s)) as (post & Hl & Hpost).
  exists pre, post. unfold Str.strip. by rewrite <- Hl, <- Hs.
Qed.

Lemma lstrip_rstrip_lstrip s :
  Str.lstrip (Str.rstrip (Str.lstrip s)) = Str.rstrip (Str.lstrip s).
Proof.
  induction s as [|c r IH]; simpl; [done|].
  destruct (Str.is_space c) eqn:E; [done|].
  simpl. destruct (Str.rstrip r); rewrite ?E; simpl; by rewrite E.
Qed.

Lemma rstrip_twice s : Str.rstrip (Str.rstrip s) = Str.rstrip s.
Proof.
  induction s as [|c r IH]; simpl; [done|].
  destruct (Str.rstrip r) as [|d r'] eqn:E.
  - destruct (Str.is_space c) eqn:Ec; simpl; [done|]. by rewrite Ec.
  - change (Str.rstrip (String c (String d r')))
      with (match Str.rstrip (String d r') with
            | EmptyString => if Str.is_space c then EmptyString else String c EmptyString
            | r'' => String c r''
            end).
    by rewrite IH.
Qed.

Lemma strip_twice s : Str.strip (Str.strip s) = Str.strip s.
Proof.
  unfold Str.strip at 1 3. unfold Str.strip.
  by rewrite lstrip_rstrip_lstrip, rstrip_twice.
Qed.

Lemma lower_empty s : Str.lower s = EmptyString ↔ s = EmptyString.
Proof. by destruct s. Qed.
End strip.

(** ** LIKE patterns with wildcards *)

Section like_more.
Implicit Types (p t : string) (c : ascii).

Lemma like_underscore_cons p t :
  Str.like (String Str.underscore p) t =
  match t with
  | EmptyString => false
  | String _ t' => Str.like p t'
  end.
Proof. reflexivity. Qed.

Lemma like_cons_cases c p :
  (c = Str.percent) ∨ (c = Str.underscore) ∨
  (Ascii.eqb c Str.percent = false ∧ Ascii.eqb c Str.underscore = false).
Proof.
  destruct (Ascii.eqb c Str.percent) eqn:E1; [left; by apply Ascii.eqb_eq|].
  destruct (Ascii.eqb c Str.underscore) eqn:E2; [right; left; by apply Ascii.eqb_eq|].
  by right; right.
Qed.

Lemma like_empty t : Str.like EmptyString t = true ↔ t = EmptyString.
Proof. by destruct t. Qed.

(** What a pattern that starts with [%] matches. *)
Lemma like_percent_spec p t :
  Str.like (String Str.percent p) t = true ↔
  ∃ pre t', t = pre +:+ t' ∧ Str.like p t' = true.
Proof.
  induction t as [|d t IH]; rewrite like_percent_unfold, orb_true_iff.
  - split.
    + intros [H|[=]]. by exists EmptyString, EmptyString.
    + intros (pre & t' & Ht & H). left.
      destruct pre; rewrite ?append_cons, ?append_nil in Ht; [by subst|done].
  - rewrite IH. split.
    + intros [H|(pre & t' & -> & H)].
      * by exists EmptyString, (String d t).
      * by exists (String d pre), t'.
    + intros ([|e pre] & t' & Ht & H); rewrite ?append_cons, ?append_nil in Ht.
      * left. by subst.
      * right. injection Ht as -> ->. eauto.
Qed.

(** What a pattern that starts with a run without wildcards matches. *)
Lemma like_plain_app_spec p r t :
  Str.plain p = true →
  Str.like (p +:+ r) t = true ↔ ∃ t', t = p +:+ t' ∧ Str.like r t' = true.
Proof.
  revert t. induction p as [|c p IH]; intros t Hp.
  - simpl. split; [eauto|]. by intros (t' & -> & H).
  - simpl in Hp.
    apply andb_true_iff in Hp as [[H1%negb_true_iff H2%negb_true_iff]%andb_true_iff Hp].
    change (String c p +:+ r) with (String c (p +:+ r)).
    rewrite like_plain_cons by done.
    destruct t as [|d t]; [split; [done|by intros (? & [=] & _)]|].
    rewrite andb_true_iff, Ascii.eqb_eq, IH by done. split.
    + intros (-> & t' & -> & H). eauto.
    + intros (t' & [= -> ->] & H). eauto.
Qed.

Lemma like_underscore_spec p t :
  Str.like (String Str.underscore p) t = true ↔
  ∃ d t', t = String d t' ∧ Str.like p t' = true.
Proof.
  rewrite like_underscore_cons. destruct t as [|d t].
  - split; [done|]. by intros (? & ? & [=] & _).
  - split; [eauto|]. by intros (? & ? & [= -> ->] & ?).
Qed.

(** Every pattern matches itself read as a text. *)
Lemma like_self p : Str.like p p = true.
Proof.
  induction p as [|c p IH]; [done|].
  destruct (like_cons_cases c p) as [->|[->|[H1 H2]]].
  - apply like_percent_spec. exists (String Str.percent EmptyString), p. done.
  - by rewrite like_underscore_cons.
  - rewrite like_plain_cons by done. rewrite IH.
    by rewrite (proj2 (Ascii.eqb_eq c c)).
Qed.

(** LIKE patterns compose by concatenation. *)
Lemma like_app p1 p2 t1 t2 :
  Str.like p1 t1 = true → Str.like p2 t2 = true →
  Str.like (p1 +:+ p2) (t1 +:+ t2) = true.
Proof.
  revert t1. induction p1 as [|c p1 IH]; intros t1 H1 H2.
  - apply like_empty in H1 as ->. done.
  - change (String c p1 +:+ p2) with (String c (p1 +:+ p2)).
    destruct (like_cons_cases c p1) as [->|[->|[Hc1 Hc2]]].
    + apply like_percent_spec in H1 as (pre & t' & -> & H1).
      apply like_percent_spec. exists pre, (t' +:+ t2). split.
      * apply append_assoc.
      * by apply IH.
    + apply like_underscore_spec in H1 as (d & t' & -> & H1).
      apply like_underscore_spec. exists d, (t' +:+ t2). split; [done|]. by apply IH.
    + rewrite like_plain_cons in H1 by done. rewrite like_plain_cons by done.
      destruct t1 as [|d t1]; [done|]. simpl.
      apply andb_true_iff in H1 as [-> H1]. by rewrite IH.
Qed.

(** A text that holds the query between anything matches the wrapped
    query, wildcards in the query or not. *)
Lemma like_wrap_inside p pre post :
  Str.like (Str.wrap p) (pre +:+ p +:+ post) = true.
Proof.
  unfold Str.wrap.
  change (String Str.percent (p +:+ String Str.percent EmptyString))
    with (String Str.percent EmptyString +:+ (p +:+ String Str.percent EmptyString)).
  apply like_app; [apply like_percent|].
  apply like_app; [apply like_self|apply like_percent].
Qed.
End like_more.

(** ** The search and its query *)

Section search_more.
Implicit Types (st : db) (q : string).

Lemma search_all_unfold st (param : option string) :
  search_all st param =
  let query := Str.strip (default EmptyString param) in
  if negb (Str.truthy query)
  then Json 400 (Failure "Search query is required")
  else Json 200 (Search query
                   (Book_to_dict st <$> unique (found_books st query))
                   (Author_to_dict st <$> unique (found_authors st query))
                   (length (unique (found_books st query)))
                   (length (unique (found_authors st query)))).
Proof. reflexivity. Qed.

Lemma column_ilike_lower (column : option string) q1 q2 :
  Str.lower q1 = Str.lower q2 →
  column_ilike column (Str.wrap q1) = column_ilike column (Str.wrap q2).
Proof.
  intros H. destruct column as [text|]; [|done]. simpl. unfold Str.ilike.
  by rewrite !lower_wrap, H.
Qed.

Lemma found_lower st q1 q2 :
  Str.lower q1 = Str.lower q2 →
  found_books st q1 = found_books st q2 ∧ found_authors st q1 = found_authors st q2.
Proof.
  intros H.
  assert (Hb : filter (λ b : Z * Book.t, column_ilike (Book.title b.2) (Str.wrap q1)) (Book_all st) =
               filter (λ b : Z * Book.t, column_ilike (Book.title b.2) (Str.wrap q2)) (Book_all st)).
  { apply list_filter_iff. intros x. by rewrite (column_ilike_lower _ q1 q2). }
  assert (Ha : filter (λ a : Z * Author.t, column_ilike (Author.name a.2) (Str.wrap q1)) (Author_all st) =
               filter (λ a : Z * Author.t, column_ilike (Author.name a.2) (Str.wrap q2)) (Author_all st)).
  { apply list_filter_iff. intros x. by rewrite (column_ilike_lower _ q1 q2). }
  unfold found_books, found_authors. by rewrite Hb, Ha.
Qed.

Lemma truthy_lower q : Str.truthy (Str.lower q) = Str.truthy q.
Proof. by destruct q. Qed.

(** A column that holds the stripped query matches it. *)
Lemma column_ilike_own_text t :
  column_ilike (Some t) (Str.wrap (Str.strip t)) = true.
Proof.
  simpl. unfold Str.ilike. rewrite lower_wrap.
  destruct (strip_inside t) as (pre & post & Ht & _).
  rewrite Ht at 2. rewrite !lower_app. apply like_wrap_inside.
Qed.

Lemma lower_percent q1 q2 :
  Str.lower (q1 +:+ String Str.percent q2) =
  Str.lower q1 +:+ String Str.percent (Str.lower q2).
Proof. by rewrite lower_app. Qed.

Lemma lower_underscore q1 q2 :
  Str.lower (q1 +:+ String Str.underscore q2) =
  Str.lower q1 +:+ String Str.underscore (Str.lower q2).
Proof. by rewrite lower_app. Qed.

Lemma ilike_gap q1 q2 t :
  Str.plain q1 = true → Str.plain q2 = true →
  Str.ilike t (Str.wrap (q1 +:+ String Str.percent q2)) = true ↔ holds_with_gap q1 q2 t.
Proof.
  intros H1 H2. unfold Str.ilike, holds_with_gap.
  rewrite lower_wrap, lower_percent. unfold Str.wrap.
  rewrite append_assoc, append_cons, like_percent_spec.
  rewrite <- plain_lower in H1, H2.
  split.
  - intros (pre & t1 & Ht & (t2 & -> & (mid & t3 & -> & H)%like_percent_spec)%like_plain_app_spec); [|done].
    rewrite like_plain_then_percent in H by done.
    apply prefix_spec in H as (post & ->). by exists pre, mid, post.
  - intros (pre & mid & post & Ht). eexists pre, _. split; [exact Ht|].
    apply like_plain_app_spec; [done|]. eexists. split; [done|].
    apply like_percent_spec. eexists mid, _. split; [done|].
    rewrite like_plain_then_percent by done. apply prefix_spec. eauto.
Qed.

Lemma ilike_one_apart q1 q2 t :
  Str.plain q1 = true → Str.plain q2 = true →
  Str.ilike t (Str.wrap (q1 +:+ String Str.underscore q2)) = true ↔ holds_one_apart q1 q2 t.
Proof.
  intros H1 H2. unfold Str.ilike, holds_one_apart.
  rewrite lower_wrap, lower_underscore. unfold Str.wrap.
  rewrite append_assoc, append_cons, like_percent_spec.
  rewrite <- plain_lower in H1, H2.
  split.
  - intros (pre & t1 & Ht & (t2 & -> & (c & t3 & -> & H)%like_underscore_spec)%like_plain_app_spec); [|done].
    rewrite like_plain_then_percent in H by done.
    apply prefix_spec in H as (post & ->). by exists pre, c, post.
  - intros (pre & c & post & Ht). eexists pre, _. split; [exact Ht|].
    apply like_plain_app_spec; [done|]. eexists. split; [done|].
    apply like_underscore_spec. eexists c, _. split; [done|].
    rewrite like_plain_then_percent by done. apply prefix_spec. eauto.
Qed.
End search_more.


(** ** The rows a delete removes *)

Section deletes.
Implicit Types (st : db).

Lemma delete_book_store st i :
  (delete_book st i).2 =
  if decide (int64 i ∧ is_Some (book st !! i))
  then Db (delete i (book st)) (author st)
          (book_author st ∖ list_to_set ((λ a, (i, a.1)) <$> Book_authors st i))
  else st.
Proof.
  unfold delete_book, Book_get. destruct (decide (int64 i)) as [Hr|Hr].
  - destruct (book st !! i) eqn:E.
    + by rewrite decide_True by eauto.
    + rewrite decide_False; [done|]. by intros [_ [? ?]].
  - rewrite decide_False; [done|]. by intros [? _].
Qed.

Lemma delete_author_store st j :
  (delete_author st j).2 =
  if decide (int64 j ∧ is_Some (author st !! j))
  then Db (book st) (delete j (author st))
          (book_author st ∖ list_to_set ((λ b, (b.1, j)) <$> Author_books st j))
  else st.
Proof.
  unfold delete_author, Author_get. destruct (decide (int64 j)) as [Hr|Hr].
  - destruct (author st !! j) eqn:E.
    + by rewrite decide_True by eauto.
    + rewrite decide_False; [done|]. by intros [_ [? ?]].
  - rewrite decide_False; [done|]. by intros [? _].
Qed.

Lemma elem_of_book_links st i (p : Z * Z) :
  p ∈ (list_to_set ((λ a, (i, a.1)) <$> Book_authors st i) : gset (Z * Z)) ↔
  p.1 = i ∧ is_Some (author st !! p.2) ∧ p ∈ book_author st.
Proof.
  rewrite elem_of_list_to_set, list_elem_of_fmap. destruct p as [i' a']. simpl. split.
  - intros ([a row] & [= -> ->] & [Ha Hl]%elem_of_Book_authors). eauto.
  - intros (-> & [row Ha] & Hl). exists (a', row). split; [done|].
    by apply elem_of_Book_authors.
Qed.

Lemma elem_of_author_links st j (p : Z * Z) :
  p ∈ (list_to_set ((λ b, (b.1, j)) <$> Author_books st j) : gset (Z * Z)) ↔
  p.2 = j ∧ is_Some (book st !! p.1) ∧ p ∈ book_author st.
Proof.
  rewrite elem_of_list_to_set, list_elem_of_fmap. destruct p as [i' a']. simpl. split.
  - intros ([i row] & [= -> ->] & [Hb Hl]%elem_of_Author_books). eauto.
  - intros (-> & [row Hb] & Hl). exists (i', row). split; [done|].
    by apply elem_of_Author_books.
Qed.
End deletes.

(** ** The outcomes of the views that write *)

Section outcomes.
Implicit Types (st : db).

Lemma create_book_outcome st data now :
  (∃ e, create_book st data now = (Unhandled e, st)) ∨
  (∃ error, create_book st data now = (Json 400 (Failure error), st)) ∨
  (∃ dict st',
     create_book st data now =
       (Json 201 (OneBook (Some "Book created successfully") dict), st') ∧
     author st' = author st).
Proof.
  destruct (create_book st data now) as [r st'] eqn:E.
  destruct (decide (status_code r = 201)) as [H201|Hno].
  - destruct (create_book_created _ _ _ _ _ E H201) as (d & b & _ & _ & -> & _ & Ha & _).
    right. right. by eexists _, _.
  - unfold create_book in E.
    destruct data as [d|]; [|injection E as <- <-; right; left; by eexists].
    destruct (no_book_data (Some d)); [injection E as <- <-; right; left; by eexists|].
    destruct (negb _); [injection E as <- <-; right; left; by eexists|].
    match type of E with context [match ?e with Some _ => (_, st) | None => _ end] =>
      destruct e end; [injection E as <- <-; right; left; by eexists|].
    match type of E with context [match ?c with Ok _ => _ | Raise _ => _ end] =>
      destruct c as [[id st1]|] end.
    + injection E as <- <-. done.
    + injection E as <- <-. left. by eexists.
Qed.

Lemma update_book_outcome st id data :
  (∃ e, update_book st id data = (Unhandled e, st)) ∨
  update_book st id data = (Json 404 (Failure "Book not found"), st) ∨
  update_book st id data = (Json 400 (Failure "No data provided"), st) ∨
  (∃ dict st',
     update_book st id data =
       (Json 200 (OneBook (Some "Book updated successfully") dict), st') ∧
     author st' = author st).
Proof.
  destruct (update_book st id data) as [r st'] eqn:E.
  destruct (decide (status_code r = 200)) as [H200|Hno].
  - destruct (update_book_updated _ _ _ _ _ E H200)
      as (b & d & st1 & _ & _ & _ & _ & _ & _ & _ & Ha & ->).
    right. right. right. by eexists _, _.
  - unfold update_book in E.
    destruct (Book_get st id) as [[b|]|];
      [|injection E as <- <-; auto|injection E as <- <-; left; by eexists].
    destruct data as [d|]; [|injection E as <- <-; auto].
    destruct (no_book_data (Some d)); [injection E as <- <-; auto|].
    match type of E with context [match ?c with Ok _ => _ | Raise _ => _ end] =>
      destruct c as [st1|] end.
    + injection E as <- <-. done.
    + injection E as <- <-. left. by eexists.
Qed.

Lemma delete_book_outcome st id :
  (∃ e, delete_book st id = (Unhandled e, st)) ∨
  delete_book st id = (Json 404 (Failure "Book not found"), st) ∨
  (∃ st', delete_book st id = (Json 200 (Message "Book deleted successfully"), st') ∧
          author st' = author st).
Proof.
  unfold delete_book. destruct (Book_get st id) as [[b|]|]; [|auto|left; by eexists].
  right. right. by eexists.
Qed.

Lemma create_author_outcome st data now :
  (∃ e, create_author st data now = (Unhandled e, st)) ∨
  (∃ error, create_author st data now = (Json 400 (Failure error), st)) ∨
  (∃ dict st',
     create_author st data now =
       (Json 201 (OneAuthor (Some "Author created successfully") dict), st') ∧
     book st' = book st ∧ book_author st' = book_author st).
Proof.
  destruct (create_author st data now) as [r st'] eqn:E.
  destruct (decide (status_code r = 201)) as [H201|Hno].
  - destruct (create_author_created _ _ _ _ _ E H201)
      as (d & a & _ & _ & -> & Hb & _ & Hl).
    right. right. by eexists _, _.
  - unfold create_author in E.
    destruct data as [d|]; [|injection E as <- <-; right; left; by eexists].
    destruct (no_author_data (Some d)); [injection E as <- <-; right; left; by eexists|].
    destruct (negb _); [injection E as <- <-; right; left; by eexists|].
    match type of E with context [match ?c with Ok _ => _ | Raise _ => _ end] =>
      destruct c as [st1|] end.
    + injection E as <- <-. done.
    + injection E as <- <-. left. by eexists.
Qed.

Lemma update_author_outcome st id data :
  (∃ e, update_author st id data = (Unhandled e, st)) ∨
  update_author st id data = (Json 404 (Failure "Author not found"), st) ∨
  update_author st id data = (Json 400 (Failure "No data provided"), st) ∨
  (∃ dict st',
     update_author st id data =
       (Json 200 (OneAuthor (Some "Author updated successfully") dict), st') ∧
     book st' = book st ∧ book_author st' = book_author st).
Proof.
  destruct (update_author st id data) as [r st'] eqn:E.
  destruct (decide (status_code r = 200)) as [H200|Hno].
  - destruct (update_author_updated _ _ _ _ _ E H200)
      as (a & d & _ & _ & _ & _ & _ & -> & ->).
    right. right. right. by eexists _, _.
  - unfold update_author in E.
    destruct (Author_get st id) as [[a|]|];
      [|injection E as <- <-; auto|injection E as <- <-; left; by eexists].
    destruct data as [d|]; [|injection E as <- <-; auto].
    destruct (no_author_data (Some d)); [injection E as <- <-; auto|].
    match type of E with context [match ?c with Ok _ => _ | Raise _ => _ end] =>
      destruct c as [st1|] end.
    + injection E as <- <-. done.
    + injection E as <- <-. left. by eexists.
Qed.

Lemma delete_author_outcome st id :
  (∃ e, delete_author st id = (Unhandled e, st)) ∨
  delete_author st id = (Json 404 (Failure "Author not found"), st) ∨
  (∃ st', delete_author st id = (Json 200 (Message "Author deleted successfully"), st') ∧
          book st' = book st).
Proof.
  unfold delete_author. destruct (Author_get st id) as [[a|]|]; [|auto|left; by eexists].
  right. right. by eexists.
Qed.
End outcomes.

(** * The claims *)



(** C2: the update view has no duplicate check of its own.  On the seeded
    store book 2 carries an ISBN; POST with that ISBN is answered 400
    "ISBN already exists", but PUT of that ISBN on book 3 reaches the store,
    whose unique constraint raises an [IntegrityError] that no view catches;
    the store is left as it was. *)
Lemma update_book_duplicate_isbn_unhandled :
  Book.isbn <$> book seeded !! 2 = Some (Some "978-0451524935") ∧
  create_book seeded (Some (titled "Nineteen Eighty-Four" (Some "978-0451524935") [])) 0 =
    (Json 400 (Failure "ISBN already exists"), seeded) ∧
  update_book seeded 3 (Some (only_isbn (Some "978-0451524935"))) =
    (Unhandled IntegrityError, seeded) ∧
  status_code (update_book seeded 3 (Some (only_isbn (Some "978-0451524935")))).1 = 500.
Proof. repeat split; vm_compute; reflexivity. Qed.

(** C3: the query is pasted into the LIKE pattern unescaped.  On the seeded
    store no title contains an underscore and no name a percent sign, yet
    the query "_" matches all seven titles and the query "%" all five
    names. *)
Lemma search_wildcards_match_other_titles :
  titles_containing seeded "_" = ∅ ∧
  B1 seeded "_" = list_to_set [1; 2; 3; 4; 5; 6; 7] ∧
  names_containing seeded "%" = ∅ ∧
  A1 seeded "%" = list_to_set [1; 2; 3; 4; 5] ∧
  ∃ books authors,
    search_all seeded (Some "_") = Json 200 (Search "_" books authors 7 5).
Proof.
  split; [by vm_compute|]. split; [by vm_compute|].
  split; [by vm_compute|]. split; [by vm_compute|].
  eexists _, _. vm_compute. reflexivity.
Qed.

(** C4 as amended: on a store that satisfies the constraints of the schema,
    PUT on a stored book, with an id and integers in the payload that fit
    a 64-bit integer and a payload that is not empty, whose title is not an
    explicit null, whose ISBN no other book carries and whose author ids do
    not repeat, answers 200 and writes each of title, year and isbn from
    the payload when its key is present (the empty string, and null for
    year and isbn, included) and leaves it as stored when the key is absent;
    no other book and no author changes.  The same holds for PUT on a
    stored author, whose name must not be an explicit null.  A payload
    whose title, or name, is an explicit null overwrites nothing: the
    column takes no null and the store is left as it was. *)
Theorem update_overwrites_present_fields :
  (∀ st id b d,
     db_ok st → int64 id → book st !! id = Some b → no_book_data (Some d) = false →
     BookData.title d ≠ Some None →
     (∀ s j bj, BookData.isbn d = Some (Some s) →
        book st !! j = Some bj → Book.isbn bj = Some s → j = id) →
     BookData.author_ids d ≠ Some None →
     (∀ ids, BookData.author_ids d = Some (Some ids) → NoDup ids) →
     book_data_fits d →
     ∃ st' b',
       update_book st id (Some d) =
         (Json 200 (OneBook (Some "Book updated successfully")
                            (Book_to_dict st' (id, b'))), st') ∧
       book st' !! id = Some b' ∧
       overwritten (BookData.title d) (Book.title b) (Book.title b') ∧
       overwritten (BookData.year d) (Book.year b) (Book.year b') ∧
       overwritten (BookData.isbn d) (Book.isbn b) (Book.isbn b') ∧
       Book.created_at b' = Book.created_at b ∧
       (∀ i, i ≠ id → book st' !! i = book st !! i) ∧
       author st' = author st ∧
       (BookData.author_ids d = None → book_author st' = book_author st)) ∧
  (∀ st id a d,
     db_ok st → int64 id → author st !! id = Some a → no_author_data (Some d) = false →
     AuthorData.name d ≠ Some None → author_data_fits d →
     ∃ st' a',
       update_author st id (Some d) =
         (Json 200 (OneAuthor (Some "Author updated successfully")
                              (Author_to_dict st' (id, a'))), st') ∧
       author st' !! id = Some a' ∧
       overwritten (AuthorData.name d) (Author.name a) (Author.name a') ∧
       overwritten (AuthorData.birth_year d) (Author.birth_year a) (Author.birth_year a') ∧
       overwritten (AuthorData.country d) (Author.country a) (Author.country a') ∧
       Author.created_at a' = Author.created_at a ∧
       (∀ j, j ≠ id → author st' !! j = author st !! j) ∧
       book st' = book st ∧
       book_author st' = book_author st) ∧
  (∀ st id b d,
     book st !! id = Some b → no_book_data (Some d) = false →
     BookData.title d = Some None →
     (update_book st id (Some d)).2 = st) ∧
  (∀ st id a d,
     author st !! id = Some a → no_author_data (Some d) = false →
     AuthorData.name d = Some None →
     (update_author st id (Some d)).2 = st).
Proof.
  split; [|split; [|split]].
  - intros st id b d Hok Hr Hb Hdata Ht Hi Hnull Hnd Hfits.
    destruct (update_book_accepted st id b d Hok Hr Hb Hdata Ht Hi Hnull Hnd Hfits)
      as (st' & Heq & Hbook & Hauthor & Hlinks).
    exists st', (updated_book b d). split; [done|].
    split; [by rewrite Hbook, lookup_insert_eq|].
    unfold overwritten. simpl.
    split; [by destruct (BookData.title d)|].
    split; [by destruct (BookData.year d)|].
    split; [by destruct (BookData.isbn d)|].
    split; [done|].
    split; [intros i Hne; by rewrite Hbook, lookup_insert_ne|].
    split; [done|].
    intros E. rewrite E in Hlinks. apply set_eq. by intros [i a].
  - intros st id a d Hok Hr Ha Hdata Hn Hfits.
    pose proof (update_author_accepted st id a d Hok Hr Ha Hdata Hn Hfits) as Heq.
    eexists _, (updated_author a d). split; [exact Heq|]. simpl.
    split; [by rewrite lookup_insert_eq|].
    unfold overwritten. simpl.
    split; [by destruct (AuthorData.name d)|].
    split; [by destruct (AuthorData.birth_year d)|].
    split; [by destruct (AuthorData.country d)|].
    split; [done|].
    split; [intros j Hne; by rewrite lookup_insert_ne|done].
  - intros st id b d Hb Hdata Ht. unfold update_book.
    destruct (Book_get st id) as [[b0|]|]; [|done|done].
    rewrite Hdata, Ht. destruct (bind_changed _ _); simpl; [|done].
    by unfold write_book.
  - intros st id a d Ha Hdata Hn. unfold update_author.
    destruct (Author_get st id) as [[a0|]|]; [|done|done].
    rewrite Hdata, Hn. destruct (bind_changed _ _); simpl; [|done].
    by unfold write_author.
Qed.

(** Updating only [year] leaves title and isbn as stored; an empty title, a
    null year and a new ISBN are written as given; a null birth year is
    written and leaves name and country as stored. *)
Lemma update_overwrites_present_fields_witness :
  (∃ st' b',
     update_book seeded 2 (Some (only_year (Some 1950))) =
       (Json 200 (OneBook (Some "Book updated successfully")
                          (Book_to_dict st' (2, b'))), st') ∧
     book st' !! 2 = Some b' ∧
     Book.title b' = Some "1984" ∧ Book.year b' = Some 1950 ∧
     Book.isbn b' = Some "978-0451524935") ∧
  (∃ st' b',
     update_book seeded 2 (Some blank_title_new_isbn) =
       (Json 200 (OneBook (Some "Book updated successfully")
                          (Book_to_dict st' (2, b'))), st') ∧
     book st' !! 2 = Some b' ∧
     Book.title b' = Some "" ∧ Book.year b' = None ∧
     Book.isbn b' = Some "0-00-000000-0") ∧
  (∃ st' a',
     update_author seeded 2 (Some (only_birth_year None)) =
       (Json 200 (OneAuthor (Some "Author updated successfully")
                            (Author_to_dict st' (2, a'))), st') ∧
     author st' !! 2 = Some a' ∧
     Author.name a' = Some "George Orwell" ∧ Author.birth_year a' = None ∧
     Author.country a' = Some "United Kingdom") ∧
  (update_book seeded 2 (Some null_title_with_author_ids)).2 = seeded ∧
  (update_author seeded 2 (Some (only_name None))).2 = seeded.
Proof.
  pose proof update_overwrites_present_fields as (Hbook & Hauthor & Hbnull & Hanull).
  assert (db_ok seeded) as Hok by by_compute (db_ok seeded).
  assert (int64 2) as Hr by by_compute (int64 2).
  split; [|split; [|split; [|split]]].
  - destruct (Hbook seeded 2 _ (only_year (Some 1950)) Hok Hr eq_refl eq_refl)
      as (st' & b' & Heq & Hb' & Ht & Hy & Hi & _); [done|done|done|done| |].
    + by_compute (book_data_fits (only_year (Some 1950))).
    + exists st', b'. done.
  - destruct (Hbook seeded 2 _ blank_title_new_isbn Hok Hr eq_refl eq_refl)
      as (st' & b' & Heq & Hb' & Ht & Hy & Hi & _); [done| |done|done| |].
    + intros s j bj [= <-] Hj Hs.
      assert (seeded_fresh_isbn "0-00-000000-0") as Hfresh
        by by_compute (seeded_fresh_isbn "0-00-000000-0").
      by destruct (Hfresh j bj Hj).
    + by_compute (book_data_fits blank_title_new_isbn).
    + exists st', b'. done.
  - destruct (Hauthor seeded 2 _ (only_birth_year None) Hok Hr eq_refl eq_refl)
      as (st' & a' & Heq & Ha' & Hn & Hy & Hc & _); [done| |].
    + by_compute (author_data_fits (only_birth_year None)).
    + exists st', a'. done.
  - by eapply Hbnull.
  - by eapply Hanull.
Defined.

(** Against C4 as stated: a payload whose only key is [title], with the
    value null, is not empty, yet nothing is overwritten: book 2 keeps its
    title, and the answer is not the 200 of an update.  The same for [name]
    on an author. *)
Lemma update_null_title_refused :
  book seeded !! 2 =
    Some (Book.mk (Some "1984") (Some 1949) (Some "978-0451524935") (Some 0)) ∧
  no_book_data (Some (only_title None)) = false ∧
  update_book seeded 2 (Some (only_title None)) = (Unhandled IntegrityError, seeded) ∧
  author seeded !! 2 =
    Some (Author.mk (Some "George Orwell") (Some 1903) (Some "United Kingdom") (Some 0)) ∧
  no_author_data (Some (only_name None)) = false ∧
  update_author seeded 2 (Some (only_name None)) = (Unhandled IntegrityError, seeded).
Proof. repeat split; vm_compute; reflexivity. Qed.

(** C5 as amended: on a store that satisfies the constraints of the schema,
    PUT on a stored book with an [author_ids] list that repeats no id, an
    id and integers in the payload that fit a 64-bit integer, a title that
    is not an explicit null and an ISBN no other book carries answers 200
    and leaves the book associated with exactly the stored authors the list
    names: the old associations are not kept, ids of no stored author are
    skipped, and the associations of the other books do not change.  POST
    with a non-empty title, an ISBN no stored book carries, integers that
    fit and an [author_ids] list that repeats no id answers 201 and
    associates the new book with exactly the stored authors the list
    names. *)
Theorem author_ids_replace_the_association_set :
  (∀ st id b d ids,
     db_ok st → int64 id → book st !! id = Some b →
     BookData.author_ids d = Some (Some ids) → NoDup ids →
     book_data_fits d →
     BookData.title d ≠ Some None →
     (∀ s j bj, BookData.isbn d = Some (Some s) →
        book st !! j = Some bj → Book.isbn bj = Some s → j = id) →
     ∃ st' dict,
       update_book st id (Some d) =
         (Json 200 (OneBook (Some "Book updated successfully") dict), st') ∧
       (∀ a, (id, a) ∈ book_author st' ↔ a ∈ ids ∧ is_Some (author st !! a)) ∧
       (∀ i a, i ≠ id → (i, a) ∈ book_author st' ↔ (i, a) ∈ book_author st) ∧
       author st' = author st ∧
       (∀ a, a ∈ AuthorSimple.id <$> BookDict.authors dict ↔
             a ∈ ids ∧ is_Some (author st !! a))) ∧
  (∀ st d now ids,
     db_ok st → truthy_str (get (BookData.title d)) = true →
     (∀ s j bj, get (BookData.isbn d) = Some s →
        book st !! j = Some bj → Book.isbn bj ≠ Some s) →
     BookData.author_ids d = Some (Some ids) → NoDup ids →
     book_data_fits d →
     ∃ st' dict,
       create_book st (Some d) now =
         (Json 201 (OneBook (Some "Book created successfully") dict), st') ∧
       book st !! BookDict.id dict = None ∧
       (∀ a, (BookDict.id dict, a) ∈ book_author st' ↔ a ∈ ids ∧ is_Some (author st !! a)) ∧
       (∀ i a, i ≠ BookDict.id dict → (i, a) ∈ book_author st' ↔ (i, a) ∈ book_author st) ∧
       author st' = author st ∧
       (∀ a, a ∈ AuthorSimple.id <$> BookDict.authors dict ↔
             a ∈ ids ∧ is_Some (author st !! a))).
Proof.
  split.
  - intros st id b d ids Hok Hr Hb Hids Hnd Hfits Ht Hi.
    destruct (update_book_accepted st id b d Hok Hr Hb)
      as (st' & Heq & _ & Hauthor & Hlinks);
      [apply has_book_data; rewrite Hids; by rewrite !orb_true_r|done|done
      |by rewrite Hids|by intros ? [= <-]%(eq_trans (eq_sym Hids))|done|].
    rewrite Hids in Hlinks.
    assert (Hown : ∀ a, (id, a) ∈ book_author st' ↔ a ∈ ids ∧ is_Some (author st !! a)).
    { intros a. rewrite Hlinks. naive_solver. }
    eexists st', _. split; [exact Heq|]. split; [exact Hown|].
    split; [intros i a Hne; rewrite Hlinks; naive_solver|].
    split; [done|].
    intros a. rewrite Book_to_dict_author_ids, elem_of_Book_authors_ids, Hauthor, Hown.
    simpl. tauto.
  - intros st d now ids Hok Ht Hi Hids Hnd Hfits.
    destruct (create_book_accepted st d now Hok Ht Hi)
      as (st' & b & Hb & Heq & Hbook & Hauthor & Hlinks);
      [by rewrite Hids|done|].
    rewrite Hids in Hlinks. simpl in Hlinks.
    set (id := next_id (book st)) in *.
    assert (Hfresh : book st !! id = None) by apply next_id_fresh.
    assert (Hown : ∀ a, (id, a) ∈ book_author st' ↔ a ∈ ids ∧ is_Some (author st !! a)).
    { intros a. rewrite Hlinks. split; [|naive_solver].
      intros [Hl|(_ & ? & ?)]; [|done].
      apply (db_ok_links _ _ _ Hok) in Hl as [[x Hx] _]. congruence. }
    eexists st', _. split; [exact Heq|].
    split; [exact Hfresh|]. split; [exact Hown|].
    split; [intros i a Hne; rewrite Hlinks; simpl in Hne; naive_solver|].
    split; [done|].
    intros a. rewrite Book_to_dict_author_ids, elem_of_Book_authors_ids, Hauthor.
    simpl. rewrite Hown. tauto.
Qed.

(** Book 7 of the seeded store is associated with authors 4 and 5; PUT with
    the ids 1, 9, 5 leaves it with 1 and 5 (there is no author 9, and 4 is
    gone).  POST with the ids 2 and 9 associates the new book with 2. *)
Lemma author_ids_replace_the_association_set_witness :
  (∃ st' dict,
     update_book seeded 7 (Some (only_author_ids (Some [1; 9; 5]))) =
       (Json 200 (OneBook (Some "Book updated successfully") dict), st') ∧
     (∀ a, (7, a) ∈ book_author st' ↔ a ∈ [1; 9; 5] ∧ is_Some (author seeded !! a)) ∧
     (∀ i a, i ≠ 7 → (i, a) ∈ book_author st' ↔ (i, a) ∈ book_author seeded)) ∧
  (∃ st' dict,
     create_book seeded (Some (titled "Coming Up for Air" None [2; 9])) 0 =
       (Json 201 (OneBook (Some "Book created successfully") dict), st') ∧
     (∀ a, (BookDict.id dict, a) ∈ book_author st' ↔
           a ∈ [2; 9] ∧ is_Some (author seeded !! a))).
Proof.
  pose proof author_ids_replace_the_association_set as [Hput Hpost].
  assert (db_ok seeded) as Hok by by_compute (db_ok seeded).
  split.
  - destruct (Hput seeded 7 _ (only_author_ids (Some [1; 9; 5])) [1; 9; 5] Hok
                ltac:(by_compute (int64 7)) eq_refl eq_refl)
      as (st' & dict & Heq & Hown & Hothers & _);
      [by_compute (NoDup [1; 9; 5])
      |by_compute (book_data_fits (only_author_ids (Some [1; 9; 5])))|done|done|].
    exists st', dict. done.
  - destruct (Hpost seeded (titled "Coming Up for Air" None [2; 9]) 0 [2; 9] Hok eq_refl)
      as (st' & dict & Heq & _ & Hown & _);
      [done|done|by_compute (NoDup [2; 9])
      |by_compute (book_data_fits (titled "Coming Up for Air" None [2; 9]))|].
    exists st', dict. done.
Defined.

(** Against C5 as stated: book 1 of the seeded store is associated with
    author 1 and not with the stored author 5, and there is no author
    2^63.  PUT on book 1 with the ids 5 and 2^63 does not skip the id of no
    author: binding it raises, and the book stays with author 1 alone;
    POST with the same list creates nothing.  Nor does a PUT replace the
    set when its payload carries a null title, or names twice an author the
    book already has. *)
Lemma update_refused_keeps_the_association_set :
  is_Some (book seeded !! 1) ∧ is_Some (author seeded !! 5) ∧
  author seeded !! (2 ^ 63) = None ∧
  (1, 1) ∈ book_author seeded ∧ ((1, 5) ∉ book_author seeded) ∧
  update_book seeded 1 (Some (only_author_ids (Some [5; 2 ^ 63]))) =
    (Unhandled OverflowError, seeded) ∧
  create_book seeded (Some (titled "The Stand" None [5; 2 ^ 63])) 0 =
    (Unhandled OverflowError, seeded) ∧
  update_book seeded 2 (Some null_title_with_author_ids) =
    (Unhandled IntegrityError, seeded) ∧
  update_book seeded 6 (Some (only_author_ids (Some [5; 5]))) =
    (Unhandled IntegrityError, seeded).
Proof.
  split; [by eexists|]. split; [by eexists|]. split; [by vm_compute|].
  split; [by_compute ((1, 1) ∈ book_author seeded)|].
  split; [by_compute ((1, 5) ∉ book_author seeded)|].
  repeat split; vm_compute; reflexivity.
Qed.

(** C6: the duplicate check of POST is skipped for an ISBN that is falsy,
    but the empty string is stored as it is, and it is not null.  A first
    POST with the title "Untitled" and the ISBN "" is answered 201 and
    stores book 8 with that ISBN; the same POST again is answered neither
    400 nor 201: the unique constraint raises an [IntegrityError] that no
    view catches, and the store is left as it was. *)
Lemma create_book_empty_isbn_twice :
  status_code (create_book seeded (Some untitled_isbn) 0).1 = 201 ∧
  Book.isbn <$> book (create_book seeded (Some untitled_isbn) 0).2 !! 8 = Some (Some "") ∧
  create_book (create_book seeded (Some untitled_isbn) 0).2 (Some untitled_isbn) 1 =
    (Unhandled IntegrityError, (create_book seeded (Some untitled_isbn) 0).2) ∧
  status_code
    (create_book (create_book seeded (Some untitled_isbn) 0).2 (Some untitled_isbn) 1).1 = 500.
Proof. repeat split; vm_compute; reflexivity. Qed.



(** C8 as amended: on a store that satisfies the constraints of the schema,
    for ids that fit a 64-bit integer, DELETE of a stored book answers 200,
    removes the book and exactly the association rows of that book, keeps
    every other book and every author, so that the book is in no author's
    list of books, and a second DELETE of the same id answers 404; DELETE
    of such an id with no stored book answers 404 and changes nothing.  The
    same holds for authors. *)
Theorem delete_removes_entity_and_its_links :
  (∀ st id,
     db_ok st → int64 id → is_Some (book st !! id) →
     ∃ st',
       delete_book st id = (Json 200 (Message "Book deleted successfully"), st') ∧
       book st' !! id = None ∧
       (∀ i, i ≠ id → book st' !! i = book st !! i) ∧
       author st' = author st ∧
       (∀ i a, (i, a) ∈ book_author st' ↔ (i, a) ∈ book_author st ∧ i ≠ id) ∧
       (∀ a, id ∉ (Author_books st' a).*1) ∧
       delete_book st' id = (Json 404 (Failure "Book not found"), st')) ∧
  (∀ st id,
     int64 id → book st !! id = None →
     delete_book st id = (Json 404 (Failure "Book not found"), st)) ∧
  (∀ st id,
     db_ok st → int64 id → is_Some (author st !! id) →
     ∃ st',
       delete_author st id = (Json 200 (Message "Author deleted successfully"), st') ∧
       author st' !! id = None ∧
       (∀ a, a ≠ id → author st' !! a = author st !! a) ∧
       book st' = book st ∧
       (∀ i a, (i, a) ∈ book_author st' ↔ (i, a) ∈ book_author st ∧ a ≠ id) ∧
       (∀ i, id ∉ (Book_authors st' i).*1) ∧
       delete_author st' id = (Json 404 (Failure "Author not found"), st')) ∧
  (∀ st id,
     int64 id → author st !! id = None →
     delete_author st id = (Json 404 (Failure "Author not found"), st)).
Proof.
  repeat apply conj; [|exact delete_book_absent| |exact delete_author_absent].
  - intros st id Hok Hr Hb.
    destruct (delete_book_found st id Hok Hr Hb) as (st' & Heq & Hbook & Hauthor & Hlinks).
    assert (book st' !! id = None) as Hgone by (rewrite Hbook; apply lookup_delete_eq).
    exists st'. repeat apply conj; try done.
    + intros i Hi. rewrite Hbook. by apply lookup_delete_ne.
    + intros a [[x Hx] _]%elem_of_Author_books_ids. congruence.
    + by apply delete_book_absent.
  - intros st id Hok Hr Ha.
    destruct (delete_author_found st id Hok Hr Ha)
      as (st' & Heq & Hbook & Hauthor & Hlinks).
    assert (author st' !! id = None) as Hgone by (rewrite Hauthor; apply lookup_delete_eq).
    exists st'. repeat apply conj; try done.
    + intros a Hne. rewrite Hauthor. by apply lookup_delete_ne.
    + intros i [[x Hx] _]%elem_of_Book_authors_ids. congruence.
    + by apply delete_author_absent.
Qed.

Lemma delete_removes_entity_and_its_links_witness :
  (∃ st',
     delete_book seeded 7 = (Json 200 (Message "Book deleted successfully"), st') ∧
     book st' !! 7 = None ∧
     author st' = author seeded ∧
     (∀ i a, (i, a) ∈ book_author st' ↔ (i, a) ∈ book_author seeded ∧ i ≠ 7) ∧
     (∀ a, 7 ∉ (Author_books st' a).*1) ∧
     delete_book st' 7 = (Json 404 (Failure "Book not found"), st')) ∧
  delete_book seeded 8 = (Json 404 (Failure "Book not found"), seeded) ∧
  (∃ st',
     delete_author seeded 2 = (Json 200 (Message "Author deleted successfully"), st') ∧
     author st' !! 2 = None ∧
     book st' = book seeded ∧
     (∀ i a, (i, a) ∈ book_author st' ↔ (i, a) ∈ book_author seeded ∧ a ≠ 2) ∧
     (∀ i, 2 ∉ (Book_authors st' i).*1) ∧
     delete_author st' 2 = (Json 404 (Failure "Author not found"), st')) ∧
  delete_author seeded 6 = (Json 404 (Failure "Author not found"), seeded).
Proof.
  pose proof delete_removes_entity_and_its_links as (Hb & Hb404 & Ha & Ha404).
  assert (db_ok seeded) as Hok by by_compute (db_ok seeded).
  repeat apply conj.
  - destruct (Hb seeded 7 Hok) as (st' & H1 & H2 & _ & H4 & H5 & H6 & H7);
      [by_compute (int64 7)|by eexists|].
    exists st'. done.
  - apply Hb404; [by_compute (int64 8)|done].
  - destruct (Ha seeded 2 Hok) as (st' & H1 & H2 & _ & H4 & H5 & H6 & H7);
      [by_compute (int64 2)|by eexists|].
    exists st'. done.
  - apply Ha404; [by_compute (int64 6)|done].
Defined.

(** Against C8 as stated: no book and no author is stored under the id
    2^63, which the route accepts, yet DELETE of it is not answered 404:
    binding the id raises. *)
Lemma delete_oversized_id_raises :
  book seeded !! (2 ^ 63) = None ∧
  delete_book seeded (2 ^ 63) = (Unhandled OverflowError, seeded) ∧
  status_code (delete_book seeded (2 ^ 63)).1 = 500 ∧
  author seeded !! (2 ^ 63) = None ∧
  delete_author seeded (2 ^ 63) = (Unhandled OverflowError, seeded) ∧
  status_code (delete_author seeded (2 ^ 63)).1 = 500.
Proof. repeat split; vm_compute; reflexivity. Qed.



(** C10 as amended: for ids that fit a 64-bit integer, PUT on an id with no
    stored entity answers 404 whatever the body is, a missing or empty one
    included; PUT on a stored entity with a missing or empty body answers
    400 "No data provided"; that 400 is answered only for a stored entity;
    and in both cases the store is left as it was.  For books and for
    authors alike. *)
Theorem update_not_found_before_validation :
  (∀ st id data,
     int64 id → book st !! id = None →
     update_book st id data = (Json 404 (Failure "Book not found"), st)) ∧
  (∀ st id data,
     int64 id → is_Some (book st !! id) → no_book_data data = true →
     update_book st id data = (Json 400 (Failure "No data provided"), st)) ∧
  (∀ st id data st',
     update_book st id data = (Json 400 (Failure "No data provided"), st') →
     is_Some (book st !! id) ∧ st' = st) ∧
  (∀ st id data,
     int64 id → author st !! id = None →
     update_author st id data = (Json 404 (Failure "Author not found"), st)) ∧
  (∀ st id data,
     int64 id → is_Some (author st !! id) → no_author_data data = true →
     update_author st id data = (Json 400 (Failure "No data provided"), st)) ∧
  (∀ st id data st',
     update_author st id data = (Json 400 (Failure "No data provided"), st') →
     is_Some (author st !! id) ∧ st' = st).
Proof.
  repeat apply conj.
  - intros st id data Hr H. unfold update_book. by rewrite Book_get_ok, H.
  - intros st id data Hr [b Hb] Hno. unfold update_book. rewrite Book_get_ok, Hb by done.
    destruct data as [d|]; [|done]. by rewrite Hno.
  - intros st id data st'. unfold update_book.
    destruct (Book_get st id) as [[b|]|] eqn:G; [|done|done].
    apply Book_get_inv in G as [_ G].
    destruct data as [d|]; [|intros [= <-]; rewrite <- G; eauto].
    destruct (no_book_data (Some d)); [intros [= <-]; rewrite <- G; eauto|].
    match goal with |- context [match ?c with Ok _ => _ | Raise _ => _ end] =>
      destruct c end; done.
  - intros st id data Hr H. unfold update_author. by rewrite Author_get_ok, H.
  - intros st id data Hr [b Hb] Hno. unfold update_author.
    rewrite Author_get_ok, Hb by done.
    destruct data as [d|]; [|done]. by rewrite Hno.
  - intros st id data st'. unfold update_author.
    destruct (Author_get st id) as [[b|]|] eqn:G; [|done|done].
    apply Author_get_inv in G as [_ G].
    destruct data as [d|]; [|intros [= <-]; rewrite <- G; eauto].
    destruct (no_author_data (Some d)); [intros [= <-]; rewrite <- G; eauto|].
    match goal with |- context [match ?c with Ok _ => _ | Raise _ => _ end] =>
      destruct c end; done.
Qed.

Lemma update_not_found_before_validation_witness :
  update_book seeded 99 None = (Json 404 (Failure "Book not found"), seeded) ∧
  update_book seeded 2 (Some (BookData.mk None None None None [])) =
    (Json 400 (Failure "No data provided"), seeded) ∧
  update_author seeded 99 None = (Json 404 (Failure "Author not found"), seeded) ∧
  update_author seeded 2 None = (Json 400 (Failure "No data provided"), seeded).
Proof.
  pose proof update_not_found_before_validation as (Hb404 & Hb400 & _ & Ha404 & Ha400 & _).
  repeat apply conj.
  - apply Hb404; [by_compute (int64 99)|done].
  - apply Hb400; [by_compute (int64 2)|by eexists|done].
  - apply Ha404; [by_compute (int64 99)|done].
  - apply Ha400; [by_compute (int64 2)|by eexists|done].
Defined.

(** Against C10 as stated: no book and no author is stored under the id
    2^63, which the route accepts, yet PUT on it is not answered 404,
    with a body or without: binding the id raises. *)
Lemma update_oversized_id_raises :
  book seeded !! (2 ^ 63) = None ∧
  update_book seeded (2 ^ 63) None = (Unhandled OverflowError, seeded) ∧
  update_book seeded (2 ^ 63) (Some (only_year (Some 1950))) =
    (Unhandled OverflowError, seeded) ∧
  author seeded !! (2 ^ 63) = None ∧
  update_author seeded (2 ^ 63) None = (Unhandled OverflowError, seeded) ∧
  status_code (update_author seeded (2 ^ 63) None).1 = 500.
Proof. repeat split; vm_compute; reflexivity. Qed.


(** * Further properties of the views *)

(** X1: every store the application can reach, from the seeded store through
    any sequence of requests, satisfies the constraints of the schema; in
    particular no two stored books carry the same non-null ISBN. *)
Theorem reachable_store_keeps_isbn_unique st :
  reachable st → db_ok st ∧ isbn_unique st.
Proof.
  intros Hr. assert (db_ok st) as Hok by by apply reachable_db_ok.
  split; [done|by apply db_ok_isbn_unique].
Qed.

(** The store after the refused PUT of a duplicate ISBN. *)
Lemma reachable_store_keeps_isbn_unique_witness :
  db_ok (handle seeded (PutBook 3 (Some (only_isbn (Some "978-0451524935"))))).2 ∧
  isbn_unique (handle seeded (PutBook 3 (Some (only_isbn (Some "978-0451524935"))))).2.
Proof.
  apply reachable_store_keeps_isbn_unique.
  apply reachable_step. exact (reachable_boot 0).
Defined.



(** X3: POST /api/books answers 400 when the body is missing or empty or
    the title is missing, null or empty; with a non-empty title it answers
    400 "ISBN already exists" when the payload's ISBN is a non-empty string
    a stored book carries; and on a store that satisfies the constraints of
    the schema it answers 201 with the created book when the title is not
    empty, no stored book carries the payload's ISBN, the author ids do not
    repeat and the integers of the payload fit a 64-bit integer. *)
Theorem create_book_outcomes :
  (∀ st data now,
     (∀ d, data = Some d → truthy_str (get (BookData.title d)) = false) →
     ∃ error, create_book st data now = (Json 400 (Failure error), st)) ∧
  (∀ st d now s j bj,
     truthy_str (get (BookData.title d)) = true →
     get (BookData.isbn d) = Some s → Str.truthy s = true →
     book st !! j = Some bj → Book.isbn bj = Some s →
     create_book st (Some d) now = (Json 400 (Failure "ISBN already exists"), st)) ∧
  (∀ st d now,
     db_ok st →
     truthy_str (get (BookData.title d)) = true →
     (∀ s j bj, get (BookData.isbn d) = Some s →
        book st !! j = Some bj → Book.isbn bj ≠ Some s) →
     (∀ ids, get (BookData.author_ids d) = Some ids → NoDup ids) →
     book_data_fits d →
     ∃ st' dict,
       create_book st (Some d) now =
         (Json 201 (OneBook (Some "Book created successfully") dict), st') ∧
       book st !! BookDict.id dict = None ∧
       BookDict.title dict = get (BookData.title d) ∧
       BookDict.year dict = get (BookData.year d) ∧
       BookDict.isbn dict = get (BookData.isbn d)).
Proof.
  repeat apply conj.
  - intros st data now Ht. unfold create_book.
    destruct data as [d|]; [|by eexists].
    destruct (no_book_data (Some d)); [by eexists|].
    rewrite (Ht d eq_refl). by eexists.
  - intros st d now s j bj Ht Hs Hts Hj Hsj. unfold create_book.
    rewrite has_book_data by (destruct (BookData.title d); done).
    rewrite Ht, Hs, Hts. simpl.
    destruct (Book_filter_by_isbn st s) as [|o l] eqn:E; [|done].
    assert ((j, bj) ∈ Book_filter_by_isbn st s) as Hin.
    { apply list_elem_of_filter. split; [done|]. by apply elem_of_map_to_list. }
    rewrite E in Hin. by apply elem_of_nil in Hin.
  - intros st d now Hok Ht Hi Hnd Hfits.
    destruct (create_book_accepted st d now Hok Ht Hi)
      as (st' & b & Hb & Heq & _); [|done|].
    { destruct (get (BookData.author_ids d)) as [ids|]; [by apply Hnd|constructor]. }
    eexists st', _. split; [exact Heq|]. subst b. simpl.
    split; [apply next_id_fresh|done].
Qed.

Lemma create_book_outcomes_witness :
  (∃ error, create_book seeded (Some (only_title (Some ""))) 0 =
              (Json 400 (Failure error), seeded)) ∧
  create_book seeded (Some (titled "Nineteen Eighty-Four" (Some "978-0451524935") [])) 0 =
    (Json 400 (Failure "ISBN already exists"), seeded) ∧
  (∃ st' dict,
     create_book seeded (Some (titled "Burmese Days" (Some "978-0141185378") [2])) 0 =
       (Json 201 (OneBook (Some "Book created successfully") dict), st') ∧
     BookDict.title dict = Some "Burmese Days").
Proof.
  pose proof create_book_outcomes as (H400 & Hdup & H201).
  repeat apply conj.
  - apply H400. by intros d [= <-].
  - by apply (Hdup seeded _ 0 "978-0451524935" 2
                (Book.mk (Some "1984") (Some 1949) (Some "978-0451524935") (Some 0))).
  - destruct (H201 seeded (titled "Burmese Days" (Some "978-0141185378") [2]) 0)
      as (st' & dict & Heq & _ & Ht & _).
    + by_compute (db_ok seeded).
    + done.
    + intros s j bj [= <-] Hj.
      assert (seeded_fresh_isbn "978-0141185378") as Hfresh
        by by_compute (seeded_fresh_isbn "978-0141185378").
      exact (Hfresh j bj Hj).
    + intros ids [= <-]. by_compute (NoDup [2]).
    + by_compute (book_data_fits (titled "Burmese Days" (Some "978-0141185378") [2])).
    + exists st', dict. done.
Defined.

(** X4: GET /api/books and GET /api/authors answer 200 with one entry per
    stored row: [count] is the size of the table, no id is listed twice, and
    a row is listed exactly when it is stored. *)
Theorem list_views_enumerate_the_tables st :
  (∃ books,
     get_books st = Json 200 (Books (size (book st)) (Book_to_dict st <$> books)) ∧
     length books = size (book st) ∧ NoDup books.*1 ∧
     ∀ i b, (i, b) ∈ books ↔ book st !! i = Some b) ∧
  (∃ authors,
     get_authors st = Json 200 (Authors (size (author st)) (Author_to_dict st <$> authors)) ∧
     length authors = size (author st) ∧ NoDup authors.*1 ∧
     ∀ j a, (j, a) ∈ authors ↔ author st !! j = Some a).
Proof.
  split.
  - destruct (Book_all_spec st) as (Hlen & Hnd & Hin).
    exists (Book_all st). unfold get_books. by rewrite Hlen.
  - destruct (Author_all_spec st) as (Hlen & Hnd & Hin).
    exists (Author_all st). unfold get_authors. by rewrite Hlen.
Qed.

(** X5: the list views follow the writes.  After a POST answered 201 the
    list holds one entry more than the table held and the created dict is
    among them; after the DELETE of a stored row, by an id that fits a
    64-bit integer, the list holds one entry less and the id is no longer
    among them; for books and for authors. *)
Theorem list_views_follow_create_and_delete :
  (∀ st data now r st',
     create_book st data now = (r, st') → status_code r = 201 →
     ∃ dict dicts,
       r = Json 201 (OneBook (Some "Book created successfully") dict) ∧
       get_books st' = Json 200 (Books (S (size (book st))) dicts) ∧
       dict ∈ dicts) ∧
  (∀ st id,
     int64 id → is_Some (book st !! id) →
     ∃ dicts,
       get_books (delete_book st id).2 = Json 200 (Books (pred (size (book st))) dicts) ∧
       id ∉ BookDict.id <$> dicts) ∧
  (∀ st data now r st',
     create_author st data now = (r, st') → status_code r = 201 →
     ∃ dict dicts,
       r = Json 201 (OneAuthor (Some "Author created successfully") dict) ∧
       get_authors st' = Json 200 (Authors (S (size (author st))) dicts) ∧
       dict ∈ dicts) ∧
  (∀ st id,
     int64 id → is_Some (author st !! id) →
     ∃ dicts,
       get_authors (delete_author st id).2 =
         Json 200 (Authors (pred (size (author st))) dicts) ∧
       id ∉ AuthorDict.id <$> dicts).
Proof.
  repeat apply conj.
  - intros st data now r st' Hc H201.
    destruct (create_book_created _ _ _ _ _ Hc H201)
      as (d & b & -> & Hb & -> & Hbook & _).
    destruct (Book_all_spec st') as (Hlen & _ & Hin).
    eexists _, _. split; [done|]. unfold get_books. rewrite Hlen, Hbook.
    rewrite map_size_insert_None by apply next_id_fresh. split; [done|].
    apply list_elem_of_fmap. eexists. split; [done|].
    apply Hin. by rewrite Hbook, lookup_insert_eq.
  - intros st id Hr Hb. unfold delete_book. destruct Hb as [b Hb].
    rewrite Book_get_ok, Hb by done. simpl.
    eexists. unfold get_books.
    match goal with |- context [Book_all ?s] =>
      destruct (Book_all_spec s) as (Hlen & _ & Hin) end.
    rewrite Hlen. simpl. rewrite map_size_delete_Some by eauto. split; [done|].
    rewrite Book_to_dict_ids. intros ([i b'] & -> & Hi%Hin)%list_elem_of_fmap.
    simpl in Hi. by rewrite lookup_delete_eq in Hi.
  - intros st data now r st' Hc H201.
    destruct (create_author_created _ _ _ _ _ Hc H201)
      as (d & a & -> & Ha & -> & _ & Hauthor & _).
    destruct (Author_all_spec st') as (Hlen & _ & Hin).
    eexists _, _. split; [done|]. unfold get_authors. rewrite Hlen, Hauthor.
    rewrite map_size_insert_None by apply next_id_fresh. split; [done|].
    apply list_elem_of_fmap. eexists. split; [done|].
    apply Hin. by rewrite Hauthor, lookup_insert_eq.
  - intros st id Hr Ha. unfold delete_author. destruct Ha as [a Ha].
    rewrite Author_get_ok, Ha by done. simpl.
    eexists. unfold get_authors.
    match goal with |- context [Author_all ?s] =>
      destruct (Author_all_spec s) as (Hlen & _ & Hin) end.
    rewrite Hlen. simpl. rewrite map_size_delete_Some by eauto. split; [done|].
    rewrite Author_to_dict_ids. intros ([j a'] & -> & Hj%Hin)%list_elem_of_fmap.
    simpl in Hj. by rewrite lookup_delete_eq in Hj.
Qed.

Lemma list_views_follow_create_and_delete_witness :
  (∃ dict dicts,
     (create_book seeded (Some (titled "Burmese Days" None [2; 2])) 3).1 =
       Json 201 (OneBook (Some "Book created successfully") dict) ∧
     get_books (create_book seeded (Some (titled "Burmese Days" None [2; 2])) 3).2 =
       Json 200 (Books 8 dicts) ∧ dict ∈ dicts) ∧
  (∃ dicts, get_books (delete_book seeded 7).2 = Json 200 (Books 6 dicts) ∧
            7 ∉ BookDict.id <$> dicts) ∧
  (∃ dict dicts,
     (create_author seeded (Some (only_name (Some "Aldous Huxley"))) 3).1 =
       Json 201 (OneAuthor (Some "Author created successfully") dict) ∧
     get_authors (create_author seeded (Some (only_name (Some "Aldous Huxley"))) 3).2 =
       Json 200 (Authors 6 dicts) ∧ dict ∈ dicts) ∧
  (∃ dicts, get_authors (delete_author seeded 1).2 = Json 200 (Authors 4 dicts) ∧
            1 ∉ AuthorDict.id <$> dicts).
Proof.
  pose proof list_views_follow_create_and_delete as (Hcb & Hdb & Hca & Hda).
  repeat apply conj.
  - destruct (Hcb seeded (Some (titled "Burmese Days" None [2; 2])) 3 _ _
                (surjective_pairing _)) as (dict & dicts & Hr & Hl & Hin); [by vm_compute|].
    by exists dict, dicts.
  - destruct (Hdb seeded 7) as (dicts & Hl & Hin);
      [by_compute (int64 7)|by eexists|]. by exists dicts.
  - destruct (Hca seeded (Some (only_name (Some "Aldous Huxley"))) 3 _ _
                (surjective_pairing _)) as (dict & dicts & Hr & Hl & Hin); [by vm_compute|].
    by exists dict, dicts.
  - destruct (Hda seeded 1) as (dicts & Hl & Hin);
      [by_compute (int64 1)|by eexists|]. by exists dicts.
Defined.

(** X6: GET of one id that fits a 64-bit integer answers 404 exactly when
    no row is stored under the id.  For a stored row it answers 200 with
    the columns of that row, and the serialized relationship lists, no id
    twice, exactly the stored rows the association table joins to it, each
    with the columns [simple_dict] gives.  GET of an id that does not fit
    raises [OverflowError]. *)
Theorem get_by_id_serializes_the_stored_row :
  (∀ st id,
     int64 id →
     get_book st id = Json 404 (Failure "Book not found") ↔ book st !! id = None) ∧
  (∀ st id b,
     int64 id → book st !! id = Some b →
     ∃ dict,
       get_book st id = Json 200 (OneBook None dict) ∧
       BookDict.id dict = id ∧ BookDict.title dict = Book.title b ∧
       BookDict.year dict = Book.year b ∧ BookDict.isbn dict = Book.isbn b ∧
       BookDict.created_at dict = Book.created_at b ∧
       NoDup (AuthorSimple.id <$> BookDict.authors dict) ∧
       ∀ s, s ∈ BookDict.authors dict ↔
            ∃ a, author st !! AuthorSimple.id s = Some a ∧
                 (id, AuthorSimple.id s) ∈ book_author st ∧
                 AuthorSimple.name s = Author.name a ∧
                 AuthorSimple.country s = Author.country a) ∧
  (∀ st id, ¬ int64 id → get_book st id = Unhandled OverflowError) ∧
  (∀ st id,
     int64 id →
     get_author st id = Json 404 (Failure "Author not found") ↔ author st !! id = None) ∧
  (∀ st id a,
     int64 id → author st !! id = Some a →
     ∃ dict,
       get_author st id = Json 200 (OneAuthor None dict) ∧
       AuthorDict.id dict = id ∧ AuthorDict.name dict = Author.name a ∧
       AuthorDict.birth_year dict = Author.birth_year a ∧
       AuthorDict.country dict = Author.country a ∧
       AuthorDict.created_at dict = Author.created_at a ∧
       NoDup (BookSimple.id <$> AuthorDict.books dict) ∧
       ∀ s, s ∈ AuthorDict.books dict ↔
            ∃ b, book st !! BookSimple.id s = Some b ∧
                 (BookSimple.id s, id) ∈ book_author st ∧
                 BookSimple.title s = Book.title b ∧
                 BookSimple.year s = Book.year b) ∧
  (∀ st id, ¬ int64 id → get_author st id = Unhandled OverflowError).
Proof.
  repeat apply conj.
  - intros st id Hr. unfold get_book. rewrite Book_get_ok by done.
    destruct (book st !! id); split; done.
  - intros st id b Hr Hb. unfold get_book. rewrite Book_get_ok, Hb by done.
    eexists. split; [done|].
    repeat (split; [done|]). split.
    + rewrite Book_to_dict_author_ids. apply Book_authors_NoDup.
    + intros s. simpl. rewrite list_elem_of_fmap. split.
      * intros ([j a] & -> & [Ha Hl]%elem_of_Book_authors). simpl. eauto.
      * intros (a & Ha & Hl & Hn & Hc). exists (AuthorSimple.id s, a).
        split; [|by apply elem_of_Book_authors].
        destruct s. simpl in *. by subst.
  - intros st id Hr. unfold get_book, Book_get. by rewrite decide_False.
  - intros st id Hr. unfold get_author. rewrite Author_get_ok by done.
    destruct (author st !! id); split; done.
  - intros st id a Hr Ha. unfold get_author. rewrite Author_get_ok, Ha by done.
    eexists. split; [done|].
    repeat (split; [done|]). split.
    + rewrite Author_to_dict_book_ids. apply Author_books_NoDup.
    + intros s. simpl. rewrite list_elem_of_fmap. split.
      * intros ([i b] & -> & [Hb Hl]%elem_of_Author_books). simpl. eauto.
      * intros (b & Hb & Hl & Ht & Hy). exists (BookSimple.id s, b).
        split; [|by apply elem_of_Author_books].
        destruct s. simpl in *. by subst.
  - intros st id Hr. unfold get_author, Author_get. by rewrite decide_False.
Qed.

Lemma get_by_id_serializes_the_stored_row_witness :
  get_book seeded 8 = Json 404 (Failure "Book not found") ∧
  (∃ dict,
     get_book seeded 7 = Json 200 (OneBook None dict) ∧
     BookDict.title dict = Some "Good Omens" ∧
     NoDup (AuthorSimple.id <$> BookDict.authors dict)) ∧
  get_book seeded (2 ^ 63) = Unhandled OverflowError ∧
  get_author seeded 0 = Json 404 (Failure "Author not found") ∧
  (∃ dict,
     get_author seeded 2 = Json 200 (OneAuthor None dict) ∧
     AuthorDict.name dict = Some "George Orwell" ∧
     NoDup (BookSimple.id <$> AuthorDict.books dict)) ∧
  get_author seeded (2 ^ 63) = Unhandled OverflowError.
Proof.
  pose proof get_by_id_serializes_the_stored_row
    as (Hb404 & Hb & Hbig & Ha404 & Ha & Habig).
  repeat apply conj.
  - apply Hb404; [by_compute (int64 8)|done].
  - destruct (Hb seeded 7 _ ltac:(by_compute (int64 7)) eq_refl)
      as (dict & Heq & _ & Ht & _ & _ & _ & Hnd & _).
    by exists dict.
  - apply Hbig. by_compute (¬ int64 (2 ^ 63)).
  - apply Ha404; [by_compute (int64 0)|done].
  - destruct (Ha seeded 2 _ ltac:(by_compute (int64 2)) eq_refl)
      as (dict & Heq & _ & Hn & _ & _ & _ & Hnd & _).
    by exists dict.
  - apply Habig. by_compute (¬ int64 (2 ^ 63)).
Defined.

(** X7: the relationship reads the same from both ends: author [j] is among
    the authors GET /api/books/[i] lists exactly when book [i] is among the
    books GET /api/authors/[j] lists. *)
Theorem serialized_relationship_is_symmetric st i j msg1 msg2 bdict adict :
  get_book st i = Json 200 (OneBook msg1 bdict) →
  get_author st j = Json 200 (OneAuthor msg2 adict) →
  j ∈ AuthorSimple.id <$> BookDict.authors bdict ↔
  i ∈ BookSimple.id <$> AuthorDict.books adict.
Proof.
  unfold get_book, get_author.
  destruct (Book_get st i) as [[b|]|] eqn:Hb; [|done|done].
  destruct (Author_get st j) as [[a|]|] eqn:Ha; [|done|done].
  apply Book_get_inv in Hb as [_ Hb]. apply Author_get_inv in Ha as [_ Ha].
  intros [= <- <-] [= <- <-].
  rewrite Book_to_dict_author_ids, Author_to_dict_book_ids.
  rewrite elem_of_Book_authors_ids, elem_of_Author_books_ids. simpl.
  rewrite <- Hb, <- Ha. split; intros [_ ?]; split; by eauto.
Qed.

Lemma serialized_relationship_is_symmetric_witness :
  ∃ bdict adict,
    get_book seeded 3 = Json 200 (OneBook None bdict) ∧
    get_author seeded 2 = Json 200 (OneAuthor None adict) ∧
    (2 ∈ AuthorSimple.id <$> BookDict.authors bdict ↔
     3 ∈ BookSimple.id <$> AuthorDict.books adict).
Proof.
  eexists _, _. split; [reflexivity|]. split; [reflexivity|].
  apply (serialized_relationship_is_symmetric seeded 3 2 None None); reflexivity.
Defined.

(** X8: what a PUT answered 200 shows of the entity, a GET of the same id
    shows afterwards; for books and for authors. *)
Theorem updated_entity_is_retrievable :
  (∀ st id data r st',
     update_book st id data = (r, st') → status_code r = 200 →
     ∃ dict,
       r = Json 200 (OneBook (Some "Book updated successfully") dict) ∧
       BookDict.id dict = id ∧
       get_book st' id = Json 200 (OneBook None dict)) ∧
  (∀ st id data r st',
     update_author st id data = (r, st') → status_code r = 200 →
     ∃ dict,
       r = Json 200 (OneAuthor (Some "Author updated successfully") dict) ∧
       AuthorDict.id dict = id ∧
       get_author st' id = Json 200 (OneAuthor None dict)).
Proof.
  split.
  - intros st id data r st' Hu H200.
    destruct (update_book_updated _ _ _ _ _ Hu H200)
      as (b & d & st1 & Hr & _ & _ & _ & _ & _ & Hbook & _ & ->).
    eexists. split; [done|]. split; [done|].
    unfold get_book. by rewrite Book_get_ok, Hbook, lookup_insert_eq.
  - intros st id data r st' Hu H200.
    destruct (update_author_updated _ _ _ _ _ Hu H200)
      as (a & d & Hr & _ & _ & _ & _ & Hst & ->).
    eexists. split; [done|]. split; [done|].
    unfold get_author. rewrite Author_get_ok by done.
    rewrite Hst at 1. simpl. by rewrite lookup_insert_eq.
Qed.

Lemma updated_entity_is_retrievable_witness :
  (∃ dict,
     (update_book seeded 7 (Some (titled "Good Omens II" None [1; 1]))).1 =
       Json 200 (OneBook (Some "Book updated successfully") dict) ∧
     get_book (update_book seeded 7 (Some (titled "Good Omens II" None [1; 1]))).2 7 =
       Json 200 (OneBook None dict)) ∧
  (∃ dict,
     (update_author seeded 5 (Some (only_name (Some "Richard Bachman")))).1 =
       Json 200 (OneAuthor (Some "Author updated successfully") dict) ∧
     get_author (update_author seeded 5 (Some (only_name (Some "Richard Bachman")))).2 5 =
       Json 200 (OneAuthor None dict)).
Proof.
  pose proof updated_entity_is_retrievable as [Hbook Hauthor].
  split.
  - destruct (Hbook seeded 7 (Some (titled "Good Omens II" None [1; 1])) _ _
                (surjective_pairing _)) as (dict & Hr & _ & Hget); [by vm_compute|].
    by exists dict.
  - destruct (Hauthor seeded 5 (Some (only_name (Some "Richard Bachman"))) _ _
                (surjective_pairing _)) as (dict & Hr & _ & Hget); [by vm_compute|].
    by exists dict.
Defined.

(** X9: on a store that satisfies the constraints of the schema, a PUT of a
    book that was answered 200, sent again, is answered the same and leaves
    the store as the first one left it, provided its [author_ids], when
    present, repeat no id and fit a 64-bit integer; a PUT of an author that
    was answered 200 does so always. *)
Theorem update_is_idempotent :
  (∀ st id d r st',
     db_ok st →
     (∀ ids, BookData.author_ids d = Some (Some ids) → NoDup ids ∧ Forall int64 ids) →
     update_book st id (Some d) = (r, st') → status_code r = 200 →
     update_book st' id (Some d) = (r, st')) ∧
  (∀ st id d r st',
     update_author st id (Some d) = (r, st') → status_code r = 200 →
     update_author st' id (Some d) = (r, st')).
Proof.
  split.
  - intros st id d r st' Hok Hids Hu H200. by eapply update_book_again.
  - intros st id d r st' Hu H200. by eapply update_author_again.
Qed.

Lemma update_is_idempotent_witness :
  update_book (update_book seeded 7 (Some (titled "Good Omens II" None [5; 1]))).2 7
      (Some (titled "Good Omens II" None [5; 1])) =
    update_book seeded 7 (Some (titled "Good Omens II" None [5; 1])) ∧
  update_author (update_author seeded 5 (Some (only_birth_year None))).2 5
      (Some (only_birth_year None)) =
    update_author seeded 5 (Some (only_birth_year None)).
Proof.
  pose proof update_is_idempotent as [Hbook Hauthor].
  split.
  - rewrite (surjective_pairing (update_book seeded 7 _)) at 2.
    apply Hbook with (st := seeded).
    + by_compute (db_ok seeded).
    + intros ids [= <-]. split; [by_compute (NoDup [5; 1])|by_compute (Forall int64 [5; 1])].
    + apply surjective_pairing.
    + by vm_compute.
  - rewrite (surjective_pairing (update_author seeded 5 _)) at 2.
    apply Hauthor with (st := seeded); [apply surjective_pairing|by vm_compute].
Defined.

(** X10: a POST, PUT or DELETE that is not answered 200 or 201, a server
    error included, leaves the store as it was. *)
Theorem failed_request_changes_nothing st r :
  answered (handle st r).1 = false → (handle st r).2 = st.
Proof.
  destruct r as [data now|id data|id|data now|id data|id]; simpl.
  - destruct (create_book_outcome st data now)
      as [[e ->]|[[error ->]|(dict & st' & -> & _)]]; done.
  - destruct (update_book_outcome st id data)
      as [[e ->]|[->|[->|(dict & st' & -> & _)]]]; done.
  - destruct (delete_book_outcome st id) as [[e ->]|[->|(st' & -> & _)]]; done.
  - destruct (create_author_outcome st data now)
      as [[e ->]|[[error ->]|(dict & st' & -> & _)]]; done.
  - destruct (update_author_outcome st id data)
      as [[e ->]|[->|[->|(dict & st' & -> & _)]]]; done.
  - destruct (delete_author_outcome st id) as [[e ->]|[->|(st' & -> & _)]]; done.
Qed.

Lemma failed_request_changes_nothing_witness :
  (handle seeded (PutBook 3 (Some (titled "Animal Farm" (Some "978-0451524935") [9])))).2
    = seeded ∧
  (handle seeded (PutBook 6 (Some (only_author_ids (Some [5; 5]))))).2 = seeded ∧
  (handle seeded (PostBook (Some (only_year (Some 2001))) 0)).2 = seeded ∧
  (handle seeded (PostBook (Some (BookData.mk (Some (Some "Bigger")) (Some (Some (2 ^ 63)))
                                    None None [])) 0)).2 = seeded ∧
  (handle seeded (DeleteAuthor 9)).2 = seeded.
Proof.
  repeat apply conj; apply failed_request_changes_nothing; reflexivity.
Defined.



(** X12: the requests on books never change the table of authors, the
    requests on authors never change the table of books, and creating or
    updating an author changes no association row. *)
Theorem requests_keep_the_other_table st :
  (∀ data now, author (create_book st data now).2 = author st) ∧
  (∀ id data, author (update_book st id data).2 = author st) ∧
  (∀ id, author (delete_book st id).2 = author st) ∧
  (∀ data now, book (create_author st data now).2 = book st ∧
               book_author (create_author st data now).2 = book_author st) ∧
  (∀ id data, book (update_author st id data).2 = book st ∧
              book_author (update_author st id data).2 = book_author st) ∧
  (∀ id, book (delete_author st id).2 = book st).
Proof.
  repeat apply conj.
  - intros data now. destruct (create_book_outcome st data now)
      as [[e ->]|[[error ->]|(dict & st' & -> & H)]]; done.
  - intros id data. destruct (update_book_outcome st id data)
      as [[e ->]|[->|[->|(dict & st' & -> & H)]]]; done.
  - intros id. destruct (delete_book_outcome st id) as [[e ->]|[->|(st' & -> & H)]]; done.
  - intros data now. destruct (create_author_outcome st data now)
      as [[e ->]|[[error ->]|(dict & st' & -> & H)]]; done.
  - intros id data. destruct (update_author_outcome st id data)
      as [[e ->]|[->|[->|(dict & st' & -> & H)]]]; done.
  - intros id. destruct (delete_author_outcome st id) as [[e ->]|[->|(st' & -> & H)]]; done.
Qed.



(** X14: two queries that differ only in letter case and in the white space
    around them are answered alike: with the same status and, when 200, with
    the same books, the same authors and the same counts, the order of the
    lists apart. *)
Theorem search_ignores_case_and_outer_whitespace st q q' :
  Str.lower (Str.strip q) = Str.lower (Str.strip q') →
  status_code (search_all st (Some q)) = status_code (search_all st (Some q')) ∧
  same_results (search_all st (Some q)) (search_all st (Some q')).
Proof.
  intros H. rewrite !search_all_unfold. simpl.
  rewrite <- (truthy_lower (Str.strip q)), <- (truthy_lower (Str.strip q')), H.
  destruct (negb _); [done|]. split; [done|].
  unfold same_results. simpl.
  by destruct (found_lower st _ _ H) as [-> ->].
Qed.

Lemma search_ignores_case_and_outer_whitespace_witness :
  status_code (search_all seeded (Some "  ORWELL ")) =
    status_code (search_all seeded (Some "orwell")) ∧
  same_results (search_all seeded (Some "  ORWELL ")) (search_all seeded (Some "orwell")).
Proof. apply search_ignores_case_and_outer_whitespace. reflexivity. Defined.



(** X16: deleting a book and deleting an author leave the same store in
    either order, whether or not the two are stored or joined. *)
Theorem deletes_commute st i j :
  (delete_author (delete_book st i).2 j).2 = (delete_book (delete_author st j).2 i).2.
Proof.
  rewrite (delete_book_store st i), (delete_author_store st j).
  destruct (decide (int64 i ∧ is_Some (book st !! i))) as [Hb|Hb],
           (decide (int64 j ∧ is_Some (author st !! j))) as [Ha|Ha];
    rewrite delete_author_store, delete_book_store; simpl;
    rewrite ?(decide_True _ _ Hb), ?(decide_True _ _ Ha),
            ?(decide_False _ _ Hb), ?(decide_False _ _ Ha); try done.
  f_equal. apply set_eq. intros p.
  rewrite !elem_of_difference, !elem_of_book_links, !elem_of_author_links. simpl.
  rewrite !elem_of_difference, !elem_of_book_links, !elem_of_author_links.
  destruct Hb as [_ Hb], Ha as [_ Ha].
  destruct (decide (p.1 = i)) as [Hi|Hi], (decide (p.2 = j)) as [Hj|Hj].
  - rewrite Hi, Hj in *. rewrite lookup_delete_eq. naive_solver.
  - rewrite Hi in *. rewrite lookup_delete_eq, lookup_delete_ne by done. naive_solver.
  - rewrite Hj in *. rewrite lookup_delete_eq, lookup_delete_ne by done. naive_solver.
  - rewrite !lookup_delete_ne by done. naive_solver.
Qed.



(** X18: a null [author_ids] is an error on update only.  PUT on a stored
    book with [author_ids: null] raises an exception the view does not catch
    and leaves the store as it was; POST takes [author_ids: null] as it
    takes an empty list. *)
Theorem null_author_ids_fails_on_update_only :
  (∀ st id d,
     is_Some (book st !! id) → BookData.author_ids d = Some None →
     ∃ e, update_book st id (Some d) = (Unhandled e, st)) ∧
  (∀ st d now,
     BookData.author_ids d = Some None →
     create_book st (Some d) now = create_book st (Some (with_author_ids d (Some []))) now).
Proof.
  split.
  - intros st id d [b Hb] Hnull. unfold update_book.
    destruct (Book_get st id) as [[b0|]|e] eqn:G; [| |by exists e].
    + assert (no_book_data (Some d) = false) as ->.
      { apply has_book_data. rewrite Hnull. by rewrite !orb_true_r. }
      rewrite Hnull.
      destruct (bind_changed _ _) as [u|e]; simpl; [|by exists e].
      match goal with |- context [write_book st id ?row] =>
        destruct (write_book st id row) as [st1|e] end; simpl; by eexists.
    + apply Book_get_inv in G as [_ G]. congruence.
  - intros st d now Hnull. unfold create_book, with_author_ids, no_book_data. simpl.
    by rewrite Hnull.
Qed.

Lemma null_author_ids_fails_on_update_only_witness :
  (∃ e, update_book seeded 7 (Some (only_author_ids None)) = (Unhandled e, seeded)) ∧
  create_book seeded (Some (BookData.mk (Some (Some "The Stand")) None None (Some None) [])) 0 =
    create_book seeded (Some (BookData.mk (Some (Some "The Stand")) None None (Some (Some [])) [])) 0.
Proof.
  pose proof null_author_ids_fails_on_update_only as [Hput Hpost].
  split.
  - apply Hput; [by eexists|done].
  - by apply (Hpost seeded (BookData.mk (Some (Some "The Stand")) None None (Some None) []) 0).
Defined.




